(** * Schnorr identification and Fiat-Shamir signatures ([schnorr.py])

    A shallow embedding of [schnorr.py] and the properties of its
    protocol logic.

    Python integers are unbounded, so they are [Z].  The two arithmetic
    primitives the program uses, three-argument [pow] and [%], are partial
    (they raise on a zero modulus, [pow] also on a negative exponent of a
    base that has no inverse) and are modelled with an explicit result type.

    The program has three pieces of mutable state: the [Prover] object
    (field [r]), the [Verifier] object (field [c]) and the generator behind
    [random.randint].  They are gathered in one record [World]; every
    method and function of the program is a computation in the monad
    [M A = World -> result A * World], so that what a call reads and what
    it leaves alone are theorems and not typing accidents.  An exception
    does not undo earlier writes, hence the world is returned next to the
    result also when the result is [Raise]. *)

From Stdlib Require Import ZArith Znumtheory Zcong Zmod List String Bool Lia.
From Stdlib Require Import DecimalString.
Import ListNotations.

Local Open Scope Z_scope.

(** ** Exceptions and results *)

(** The built-in exceptions the program can raise.  [OtherError cls] names
    any other exception class; no definition below ever raises one. *)
Inductive exn : Type :=
| TypeError
| ValueError
| ZeroDivisionError
| OtherError (cls : string).

Inductive result (A : Type) : Type :=
| Ok (a : A)
| Raise (e : exn).

Arguments Ok {A} a.
Arguments Raise {A} e.

Definition is_ok {A : Type} (v : result A) : bool :=
  match v with Ok _ => true | Raise _ => false end.

Definition raises {A : Type} (v : result A) : Prop :=
  exists e, v = Raise e.

(** ** Python arithmetic *)

(** [a % m]: floor remainder, the sign of the result follows [m], as
    [Z.modulo]; a zero divisor raises. *)
Definition py_mod (a m : Z) : result Z :=
  if m =? 0 then Raise ZeroDivisionError else Ok (a mod m).

(** [pow(b, e, m)] on integers (Python 3.8 and later).  A zero modulus
    raises [ValueError].  A negative exponent first replaces the base by its
    inverse modulo [|m|], and raises [ValueError] when there is none. *)
Definition py_pow (b e m : Z) : result Z :=
  if m =? 0 then Raise ValueError
  else if 0 <=? e then Ok (b ^ e mod m)
  else if Z.gcd b m =? 1 then Ok (Z.invmod b (Z.abs m) ^ (- e) mod m)
  else Raise ValueError.

(** [str(n).encode()]: the decimal rendering of an integer, with a leading
    minus sign for negative numbers. *)
Definition py_str (n : Z) : string := NilZero.string_of_int (Z.to_int n).

(** ** The random module *)

(** The generator is a tape of raw values and a read position.  A call of
    [randint] consumes one raw value. *)
Record Rng : Type := mkRng { tape : nat -> Z; pos : nat }.

Definition next_raw (rs : Rng) : Z := tape rs (pos rs).
Definition advance (rs : Rng) : Rng := mkRng (tape rs) (S (pos rs)).

(** The value [randint(lo, hi)] makes of a raw value: always inside
    [[lo, hi]], and the raw value itself when that already is. *)
Definition clamp (lo hi raw : Z) : Z := lo + (raw - lo) mod (hi - lo + 1).

(** A generator that returns the listed values, then zeros. *)
Definition rng_of (draws : list Z) : Rng := mkRng (fun n => nth n draws 0) 0.

(** ** Objects and the world *)

(** [class SchnorrProtocol]: fields [p] and [g]. *)
Record SchnorrProtocol : Type := mkSchnorrProtocol { p_ : Z; g_ : Z }.

(** [class Prover]: fields [protocol], [x], [y], [r]; [r] is [None] until
    the first [commit]. *)
Record ProverObj : Type := mkProver
  { pr_protocol : SchnorrProtocol; pr_x : Z; pr_y : Z; pr_r : option Z }.

(** [class Verifier]: fields [protocol], [y], [c]; [c] is [None] until the
    first [challenge]. *)
Record VerifierObj : Type := mkVerifier
  { vf_protocol : SchnorrProtocol; vf_y : Z; vf_c : option Z }.

Record World : Type := mkWorld
  { rng : Rng; prover : ProverObj; verifier : VerifierObj }.

Definition set_rng (rs : Rng) (w : World) : World :=
  mkWorld rs (prover w) (verifier w).
Definition set_prover (o : ProverObj) (w : World) : World :=
  mkWorld (rng w) o (verifier w).
Definition set_verifier (o : VerifierObj) (w : World) : World :=
  mkWorld (rng w) (prover w) o.

(** ** The monad of the program *)

Definition M (A : Type) : Type := World -> result A * World.

Definition ret {A : Type} (a : A) : M A := fun w => (Ok a, w).

Definition bind {A B : Type} (m : M A) (k : A -> M B) : M B :=
  fun w => match m w with
           | (Ok a, w') => k a w'
           | (Raise e, w') => (Raise e, w')
           end.

Definition lift {A : Type} (v : result A) : M A := fun w => (v, w).

Definition raise {A : Type} (e : exn) : M A := fun w => (Raise e, w).

Definition gets {A : Type} (f : World -> A) : M A := fun w => (Ok (f w), w).

Definition modify (f : World -> World) : M unit := fun w => (Ok tt, f w).

Declare Scope py_scope.
Delimit Scope py_scope with py.
Notation "x <- m ;; k" := (bind m (fun x => k))
  (at level 61, m at next level, right associativity) : py_scope.
Notation "m ;;; k" := (bind m (fun _ => k))
  (at level 61, right associativity) : py_scope.
Local Open Scope py_scope.

(** Reading an attribute that may still be [None] as an integer operand:
    arithmetic on [None] raises [TypeError]. *)
Definition as_int (v : option Z) : M Z :=
  match v with
  | Some n => ret n
  | None => raise TypeError
  end.

(** [random.randint(lo, hi)]: [ValueError] on an empty range, otherwise one
    raw value is consumed. *)
Definition randint (lo hi : Z) : M Z :=
  fun w =>
    if hi <? lo then (Raise ValueError, w)
    else (Ok (clamp lo hi (next_raw (rng w))), set_rng (advance (rng w)) w).

(** ** class SchnorrProtocol *)

(** [SchnorrProtocol.__init__]: stores its two arguments. *)
Definition SchnorrProtocol_init (p g : Z) : result SchnorrProtocol :=
  Ok (mkSchnorrProtocol p g).

(** ** class Prover *)

Module Prover.

(** [__init__]: the public key is computed at construction. *)
Definition init (protocol : SchnorrProtocol) (secret : Z) : result ProverObj :=
  match py_pow (g_ protocol) secret (p_ protocol) with
  | Ok y => Ok (mkProver protocol secret y None)
  | Raise e => Raise e
  end.

Definition set_r (v : Z) (o : ProverObj) : ProverObj :=
  mkProver (pr_protocol o) (pr_x o) (pr_y o) (Some v).

(** [commit]: draw the nonce, store it, return [g^r mod p]. *)
Definition commit : M Z :=
  self <- gets prover ;;
  v <- randint 1 (p_ (pr_protocol self) - 2) ;;
  modify (fun w => set_prover (set_r v (prover w)) w) ;;;
  self <- gets prover ;;
  r <- as_int (pr_r self) ;;
  t <- lift (py_pow (g_ (pr_protocol self)) r (p_ (pr_protocol self))) ;;
  ret t.

(** [respond]: [(self.r + challenge * self.x) % (p - 1)]; the sum is
    evaluated before the remainder. *)
Definition respond (challenge : Z) : M Z :=
  self <- gets prover ;;
  r <- as_int (pr_r self) ;;
  s <- lift (py_mod (r + challenge * pr_x self) (p_ (pr_protocol self) - 1)) ;;
  ret s.

End Prover.

(** ** class Verifier *)

Module Verifier.

Definition init (protocol : SchnorrProtocol) (prover_public_key : Z)
  : result VerifierObj :=
  Ok (mkVerifier protocol prover_public_key None).

Definition set_c (v : Z) (o : VerifierObj) : VerifierObj :=
  mkVerifier (vf_protocol o) (vf_y o) (Some v).

(** [challenge]: draw the challenge, store it, return it. *)
Definition challenge : M Z :=
  self <- gets verifier ;;
  v <- randint 1 (p_ (vf_protocol self) - 2) ;;
  modify (fun w => set_verifier (set_c v (verifier w)) w) ;;;
  self <- gets verifier ;;
  as_int (vf_c self).

(** [verify]: [lhs] is computed first, then [pow(self.y, self.c, p)],
    which raises [TypeError] while [self.c] is [None]. *)
Definition verify (commitment response : Z) : M bool :=
  self <- gets verifier ;;
  lhs <- lift (py_pow (g_ (vf_protocol self)) response (p_ (vf_protocol self))) ;;
  c <- as_int (vf_c self) ;;
  yc <- lift (py_pow (vf_y self) c (p_ (vf_protocol self))) ;;
  rhs <- lift (py_mod (commitment * yc) (p_ (vf_protocol self))) ;;
  ret (lhs =? rhs).

End Verifier.

(** ** run_protocol *)

(** Sequencing of constructor calls, which can raise but have no world yet. *)
Definition and_then {A B : Type} (v : result A) (k : A -> result B) : result B :=
  match v with
  | Ok a => k a
  | Raise e => Raise e
  end.

(** The three constructor calls of [run_protocol], for arbitrary parameters
    and secret: the verifier receives the prover's public key. *)
Definition new_session (p g secret : Z) (rs : Rng) : result World :=
  and_then (SchnorrProtocol_init p g) (fun protocol =>
  and_then (Prover.init protocol secret) (fun pr =>
  and_then (Verifier.init protocol (pr_y pr)) (fun vf =>
  Ok (mkWorld rs pr vf)))).

(** What [run_protocol] prints at the end: the four protocol values and the
    two sides of the verification equation, recomputed by the driver. *)
Record Transcript : Type := mkTranscript
  { tr_t : Z; tr_c : Z; tr_s : Z; tr_lhs : Z; tr_rhs : Z; tr_valid : bool }.

(** The four moves of [run_protocol], in its order, and the two sides of
    the equation that the driver recomputes for printing.  The driver's
    local [protocol] is the object the prover was built with. *)
Definition exchange : M Transcript :=
  t <- Prover.commit ;;
  c <- Verifier.challenge ;;
  s <- Prover.respond c ;;
  valid <- Verifier.verify t s ;;
  pr <- gets prover ;;
  lhs <- lift (py_pow (g_ (pr_protocol pr)) s (p_ (pr_protocol pr))) ;;
  yc <- lift (py_pow (pr_y pr) c (p_ (pr_protocol pr))) ;;
  rhs <- lift (py_mod (t * yc) (p_ (pr_protocol pr))) ;;
  ret (mkTranscript t c s lhs rhs valid).

Definition run_protocol_with (p g secret : Z) (rs : Rng) : result Transcript :=
  and_then (new_session p g secret rs) (fun w => fst (exchange w)).

(** [run_protocol] itself: the toy group and the secret 6. *)
Definition run_protocol (rs : Rng) : result Transcript :=
  run_protocol_with 23 5 6 rs.

(** ** Signatures *)

(** [message.encode()]: a message is represented by its UTF-8 bytes, so
    encoding changes nothing.  (Text that has no UTF-8 encoding, a lone
    surrogate, is outside this model.) *)
Definition py_encode (message : string) : string := message.

Section Signature.

(** [int(hashlib.sha256(data).hexdigest(), 16)], the digest of a byte
    string read as an integer.  Nothing is assumed about it. *)
Variable sha256_int : string -> Z.

(** [schnorr_signature]: nonce, commitment, hashed challenge, response. *)
Definition schnorr_signature
    (message : string) (private_key : Z) (protocol : SchnorrProtocol)
  : M (Z * Z) :=
  k <- randint 1 (p_ protocol - 2) ;;
  R <- lift (py_pow (g_ protocol) k (p_ protocol)) ;;
  e <- lift (py_mod (sha256_int (py_str R ++ py_encode message))
                    (p_ protocol - 1)) ;;
  s <- lift (py_mod (k + e * private_key) (p_ protocol - 1)) ;;
  ret (s, e).

(** [verify_signature]: rebuild the commitment from [(s, e)] and the
    public key, hash again, compare. *)
Definition verify_signature
    (message : string) (signature : Z * Z) (public_key : Z)
    (protocol : SchnorrProtocol)
  : M bool :=
  let '(s, e) := signature in
  g_s <- lift (py_pow (g_ protocol) s (p_ protocol)) ;;
  y_inv <- lift (py_pow public_key (p_ protocol - 1 - e) (p_ protocol)) ;;
  R <- lift (py_mod (g_s * y_inv) (p_ protocol)) ;;
  e_check <- lift (py_mod (sha256_int (py_str R ++ py_encode message))
                          (p_ protocol - 1)) ;;
  ret (e =? e_check).

(** Signing and then verifying, as [demo_signature] does. *)
Definition sign_then_verify
    (message : string) (private_key public_key : Z)
    (protocol : SchnorrProtocol)
  : M bool :=
  sig <- schnorr_signature message private_key protocol ;;
  verify_signature message sig public_key protocol.

End Signature.

(** ** Premises on the group *)

(** The integers [1, 2, ..., n]. *)
Definition upto (n : Z) : list Z := map Z.of_nat (seq 1 (Z.to_nat n)).

(** [g] generates the multiplicative group modulo [p]: every residue in
    [[1, p-1]] is a power [g^k mod p] with [k] in [[1, p-1]]. *)
Definition is_generator (p g : Z) : bool :=
  forallb (fun a => existsb (fun k => g ^ k mod p =? a) (upto (p - 1)))
          (upto (p - 1)).

(** Primality by trial division, to evaluate [Z.prime] on concrete moduli. *)
Definition is_prime (p : Z) : bool :=
  (1 <? p)
  && forallb (fun n => (n <=? 1) || negb (p mod n =? 0)) (upto (p - 1)).

(** A stand-in for the digest in examples: any function will do. *)
Definition toy_digest (data : string) : Z :=
  Z.of_nat (String.length data) * 7919 + 13.

(** A world whose two objects are built for the toy group, for examples. *)
Definition toy_protocol : SchnorrProtocol := mkSchnorrProtocol 23 5.

Definition toy_world (draws : list Z) (r c : option Z) : World :=
  mkWorld (rng_of draws)
    (mkProver toy_protocol 6 8 r) (mkVerifier toy_protocol 8 c).

(** What the specification calls a malformed group description: the
    modulus is not an odd integer at least 3, or the generator is outside
    [[2, modulus - 2]]. *)
Definition malformed (p g : Z) : bool :=
  negb ((3 <=? p) && Z.odd p) || negb ((2 <=? g) && (g <=? p - 2)).

(** ** demo_signature *)

(** [SchnorrProtocol()]: the constructor with its default arguments. *)
Definition SchnorrProtocol_default : result SchnorrProtocol :=
  SchnorrProtocol_init 23 5.

(** What [demo_signature] prints: the signature and the two verdicts. *)
Record Demo : Type := mkDemo
  { demo_sig : Z * Z; demo_valid : bool; demo_tampered : bool }.

(** [demo_signature]: sign one message, verify it, and verify the same
    signature against another message. *)
Definition demo_signature (sha256_int : string -> Z) : M Demo :=
  protocol <- lift SchnorrProtocol_default ;;
  public_key <- lift (py_pow (g_ protocol) 6 (p_ protocol)) ;;
  sig <- schnorr_signature sha256_int "Hello, Crypto!" 6 protocol ;;
  valid <- verify_signature sha256_int "Hello, Crypto!" sig public_key
             protocol ;;
  tampered <- verify_signature sha256_int "Hello, World!" sig public_key
                protocol ;;
  ret (mkDemo sig valid tampered).

(** The nonce and the challenge that the next two calls of [randint] make
    of the generator's state. *)
Definition first_draw (p : Z) (rs : Rng) : Z := clamp 1 (p - 2) (next_raw rs).
Definition second_draw (p : Z) (rs : Rng) : Z :=
  clamp 1 (p - 2) (next_raw (advance rs)).

(** ** Proof support *)

(** Case analysis on every result or optional value a goal matches on. *)
Ltac case_results :=
  repeat match goal with
         | |- context [match ?v with Ok _ => _ | Raise _ => _ end] =>
             destruct v; cbn
         | |- context [match ?v with Some _ => _ | None => _ end] =>
             destruct v; cbn
         end.

(** The primitives and the methods are rewritten with their lemmas, not
    unfolded by simplification. *)
#[local] Arguments clamp : simpl never.
#[local] Arguments py_pow : simpl never.
#[local] Arguments py_mod : simpl never.
#[local] Arguments Prover.commit : simpl never.
#[local] Arguments Prover.respond : simpl never.
#[local] Arguments Verifier.challenge : simpl never.
#[local] Arguments Verifier.verify : simpl never.
#[local] Arguments randint : simpl never.
#[local] Arguments next_raw : simpl never.
#[local] Arguments advance : simpl never.

(** * Sanity checks *)

Example run_protocol_3_7 :
  run_protocol (rng_of [3; 7]) = Ok (mkTranscript 10 7 1 5 5 true).
Proof. reflexivity. Qed.

Example sign_verify_toy :
  fst (sign_then_verify toy_digest "Hello, Crypto!" 6 8 toy_protocol
         (toy_world [4] None None)) = Ok true.
Proof. vm_compute. reflexivity. Qed.

Example is_generator_23_5 : is_generator 23 5 = true.
Proof. vm_compute. reflexivity. Qed.

Example is_generator_23_2 : is_generator 23 2 = false.
Proof. vm_compute. reflexivity. Qed.

Example negative_secret :
  run_protocol_with 23 5 (-3) (rng_of [3; 7]) = Ok (mkTranscript 10 7 4 4 4 true).
Proof. vm_compute. reflexivity. Qed.

(** * Properties *)

(** ** Arithmetic in a group whose generator has order dividing [p - 1] *)

Section Exponents.

Variables p g : Z.
Hypothesis p_ge_3 : 3 <= p.
Hypothesis g_order : g ^ (p - 1) mod p = 1.

Lemma pow_mod_order (a : Z) :
  0 <= a -> g ^ a mod p = g ^ (a mod (p - 1)) mod p.
Proof.
  intros Ha.
  assert (Hq : 0 <= a / (p - 1)) by (apply Z.div_pos; lia).
  assert (Hr : 0 <= a mod (p - 1) < p - 1) by (apply Z.mod_pos_bound; lia).
  rewrite (Z.div_mod a (p - 1)) at 1 by lia.
  rewrite Z.pow_add_r, Z.pow_mul_r
    by (try apply Z.mul_nonneg_nonneg; lia).
  rewrite Z.mul_mod, <- Z.mod_pow_l, g_order, Z.pow_1_l by lia.
  rewrite <- Z.mul_mod, Z.mul_1_l by lia.
  reflexivity.
Qed.

Lemma pow_congr (a b : Z) :
  0 <= a -> 0 <= b -> a mod (p - 1) = b mod (p - 1) ->
  g ^ a mod p = g ^ b mod p.
Proof.
  intros Ha Hb Hab.
  rewrite (pow_mod_order a), (pow_mod_order b), Hab by assumption.
  reflexivity.
Qed.

Lemma pow_pow_mod (a b : Z) :
  0 <= a -> 0 <= b -> (g ^ a mod p) ^ b mod p = g ^ (a * b) mod p.
Proof.
  intros Ha Hb. rewrite Z.mod_pow_l, Z.pow_mul_r by assumption. reflexivity.
Qed.

Lemma generator_coprime : Z.gcd g p = 1.
Proof.
  apply Z.bezout_1_gcd.
  exists (g ^ (p - 2)), (- (g ^ (p - 1) / p)).
  pose proof (Z.div_mod (g ^ (p - 1)) p ltac:(lia)) as E.
  rewrite g_order in E.
  replace (g ^ (p - 1)) with (g ^ (p - 2) * g) in E at 1.
  - lia.
  - replace (p - 1) with (p - 2 + 1) by lia.
    rewrite Z.pow_add_r, Z.pow_1_r by lia. reflexivity.
Qed.

(** Inverses modulo [p] are unique. *)
Lemma inverse_unique (a b c : Z) :
  (a * c) mod p = 1 -> (b * c) mod p = 1 -> a mod p = b mod p.
Proof.
  intros Ha Hb.
  rewrite <- (Z.mul_1_r a), <- Hb, Z.mul_mod_idemp_r by lia.
  rewrite <- (Z.mul_1_r b) at 2.
  rewrite <- Ha, Z.mul_mod_idemp_r by lia.
  f_equal. ring.
Qed.

(** [pow(g, e, p)] never raises, for any sign of the exponent, and only
    depends on [e] modulo [p - 1]. *)
Lemma py_pow_generator (e : Z) :
  py_pow g e p = Ok (g ^ (e mod (p - 1)) mod p).
Proof.
  assert (Hr : 0 <= e mod (p - 1) < p - 1) by (apply Z.mod_pos_bound; lia).
  unfold py_pow.
  destruct (Z.eqb_spec p 0) as [|_]; [lia|].
  destruct (Z.leb_spec 0 e) as [He|He].
  - rewrite <- pow_mod_order by assumption. reflexivity.
  - rewrite generator_coprime, Z.eqb_refl, Z.abs_eq by lia.
    f_equal.
    rewrite <- (Z.mod_mod (g ^ _) p) by lia.
    apply inverse_unique with (c := g ^ (- e)).
    + rewrite <- Z.pow_mul_l, <- Z.mod_pow_l.
      rewrite Z.invmod_coprime by (try apply generator_coprime; lia).
      rewrite Z.pow_1_l, Z.mod_1_l by lia. reflexivity.
    + rewrite Z.mul_mod_idemp_l, <- Z.pow_add_r by lia.
      rewrite (pow_congr (e mod (p - 1) + - e) 0);
        [ rewrite Z.pow_0_r, Z.mod_1_l by lia; reflexivity | lia | lia | ].
      rewrite Z.add_mod_idemp_l by lia.
      f_equal. lia.
Qed.

(** The two sides of the interactive verification equation agree on an
    honest transcript. *)
Lemma verification_equation (x r c : Z) :
  0 <= r -> 0 <= c ->
  g ^ ((r + c * x) mod (p - 1)) mod p
  = (g ^ r mod p * ((g ^ (x mod (p - 1)) mod p) ^ c mod p)) mod p.
Proof.
  intros Hr Hc.
  assert (Hx : 0 <= x mod (p - 1) < p - 1) by (apply Z.mod_pos_bound; lia).
  assert (Hs : 0 <= (r + c * x) mod (p - 1) < p - 1)
    by (apply Z.mod_pos_bound; lia).
  rewrite pow_pow_mod, <- Z.mul_mod, <- Z.pow_add_r by nia.
  apply pow_congr; try nia.
  rewrite Z.mod_mod by lia.
  rewrite (Z.add_mod r (c * x)), (Z.add_mod r (_ * c)) by lia.
  rewrite (Z.mul_mod (x mod _) c), Z.mod_mod, <- Z.mul_mod by lia.
  rewrite (Z.mul_comm x c). reflexivity.
Qed.

(** The commitment rebuilt by signature verification is the signer's. *)
Lemma reconstruction_equation (x k e : Z) :
  0 <= k -> 0 <= e <= p - 2 ->
  (g ^ ((k + e * x) mod (p - 1)) mod p
   * ((g ^ (x mod (p - 1)) mod p) ^ (p - 1 - e) mod p)) mod p
  = g ^ k mod p.
Proof.
  intros Hk He.
  assert (Hx : 0 <= x mod (p - 1) < p - 1) by (apply Z.mod_pos_bound; lia).
  assert (Hs : 0 <= (k + e * x) mod (p - 1) < p - 1)
    by (apply Z.mod_pos_bound; lia).
  rewrite pow_pow_mod, <- Z.mul_mod, <- Z.pow_add_r by nia.
  apply pow_congr; try nia.
  rewrite Z.add_mod_idemp_l by lia.
  rewrite <- (Z.add_mod_idemp_r _ (x mod _ * _)) by lia.
  rewrite Z.mul_mod_idemp_l by lia.
  rewrite Z.add_mod_idemp_r by lia.
  replace (k + e * x + x * (p - 1 - e)) with (k + x * (p - 1)) by ring.
  apply Z.mod_add. lia.
Qed.

End Exponents.

(** ** Premises: primality and generators *)

Lemma In_upto (n a : Z) : In a (upto n) <-> 1 <= a <= n.
Proof.
  unfold upto. rewrite in_map_iff. split.
  - intros [k [<- Hk]]. apply in_seq in Hk. lia.
  - intros Ha. exists (Z.to_nat a). split; [lia|]. apply in_seq. lia.
Qed.

Lemma is_prime_sound (p : Z) : is_prime p = true -> Z.prime p.
Proof.
  unfold is_prime. rewrite andb_true_iff, forallb_forall.
  intros [Hp Hall]. apply Z.ltb_lt in Hp.
  split; [assumption|].
  intros n Hn Hdiv.
  specialize (Hall n). rewrite In_upto in Hall.
  specialize (Hall ltac:(lia)).
  apply orb_true_iff in Hall. destruct Hall as [Hle|Hmod].
  - apply Z.leb_le in Hle. lia.
  - apply negb_true_iff, Z.eqb_neq in Hmod.
    apply Hmod, Z.mod_divide; [lia|assumption].
Qed.

Lemma generator_nonzero (p g : Z) :
  3 <= p -> is_generator p g = true -> g mod p <> 0.
Proof.
  intros Hp Hgen Hz.
  unfold is_generator in Hgen. rewrite forallb_forall in Hgen.
  specialize (Hgen 2). rewrite In_upto in Hgen.
  specialize (Hgen ltac:(lia)).
  apply existsb_exists in Hgen. destruct Hgen as [k [Hk Hpow]].
  apply In_upto in Hk. apply Z.eqb_eq in Hpow.
  rewrite <- Z.mod_pow_l, Hz, Z.pow_0_l, Z.mod_0_l in Hpow by lia.
  discriminate.
Qed.

(** Fermat: a generator modulo a prime has order dividing [p - 1]. *)
Lemma generator_order (p g : Z) :
  Z.prime p -> 3 <= p -> is_generator p g = true -> g ^ (p - 1) mod p = 1.
Proof.
  intros Hprime Hp Hgen.
  apply Z.fermat_nz; [assumption|].
  apply generator_nonzero; assumption.
Qed.

(** ** The primitives *)

Lemma py_pow_nonneg (b e m : Z) :
  m <> 0 -> 0 <= e -> py_pow b e m = Ok (b ^ e mod m).
Proof.
  intros Hm He. unfold py_pow.
  destruct (Z.eqb_spec m 0); [contradiction|].
  destruct (Z.leb_spec 0 e); [reflexivity|lia].
Qed.

Lemma py_mod_nonzero (a m : Z) : m <> 0 -> py_mod a m = Ok (a mod m).
Proof.
  intros Hm. unfold py_mod. destruct (Z.eqb_spec m 0); [contradiction|reflexivity].
Qed.

Lemma clamp_range (lo hi raw : Z) : lo <= hi -> lo <= clamp lo hi raw <= hi.
Proof.
  intros H. unfold clamp.
  pose proof (Z.mod_pos_bound (raw - lo) (hi - lo + 1) ltac:(lia)). lia.
Qed.

Lemma clamp_id (lo hi raw : Z) : lo <= raw <= hi -> clamp lo hi raw = raw.
Proof.
  intros H. unfold clamp. rewrite Z.mod_small by lia. lia.
Qed.

Lemma randint_run (lo hi : Z) (w : World) :
  lo <= hi ->
  randint lo hi w
  = (Ok (clamp lo hi (next_raw (rng w))), set_rng (advance (rng w)) w).
Proof.
  intros H. unfold randint. destruct (Z.ltb_spec hi lo); [lia|reflexivity].
Qed.

Lemma randint_empty (lo hi : Z) (w : World) :
  hi < lo -> randint lo hi w = (Raise ValueError, w).
Proof.
  intros H. unfold randint. destruct (Z.ltb_spec hi lo); [reflexivity|lia].
Qed.
Lemma commit_run (w : World) :
  let P := pr_protocol (prover w) in
  let r := clamp 1 (p_ P - 2) (next_raw (rng w)) in
  3 <= p_ P ->
  Prover.commit w
  = (Ok (g_ P ^ r mod p_ P),
     mkWorld (advance (rng w)) (Prover.set_r r (prover w)) (verifier w)).
Proof.
  intros P r HP.
  pose proof (clamp_range 1 (p_ P - 2) (next_raw (rng w)) ltac:(lia)) as Hr.
  unfold Prover.commit, bind, gets, modify, lift, ret. cbn.
  fold P. rewrite randint_run by lia. cbn. fold P. fold r. fold r in Hr.
  rewrite py_pow_nonneg by lia. reflexivity.
Qed.

Lemma challenge_run (w : World) :
  let P := vf_protocol (verifier w) in
  let c := clamp 1 (p_ P - 2) (next_raw (rng w)) in
  3 <= p_ P ->
  Verifier.challenge w
  = (Ok c, mkWorld (advance (rng w)) (prover w) (Verifier.set_c c (verifier w))).
Proof.
  intros P c HP.
  unfold Verifier.challenge, bind, gets, modify, lift, ret. cbn.
  fold P. rewrite randint_run by lia. reflexivity.
Qed.

Lemma respond_run (w : World) (challenge r : Z) :
  pr_r (prover w) = Some r ->
  p_ (pr_protocol (prover w)) <> 1 ->
  Prover.respond challenge w
  = (Ok ((r + challenge * pr_x (prover w)) mod (p_ (pr_protocol (prover w)) - 1)),
     w).
Proof.
  intros Hr Hp.
  unfold Prover.respond, bind, gets, lift, ret. cbn.
  rewrite Hr. cbn. rewrite py_mod_nonzero by lia. reflexivity.
Qed.

Lemma verify_run (w : World) (commitment response c lhs : Z) :
  let P := vf_protocol (verifier w) in
  vf_c (verifier w) = Some c ->
  0 <= c ->
  py_pow (g_ P) response (p_ P) = Ok lhs ->
  Verifier.verify commitment response w
  = (Ok (lhs =? (commitment * (vf_y (verifier w) ^ c mod p_ P)) mod p_ P), w).
Proof.
  intros P Hc Hc0 Hlhs.
  assert (HP : p_ P <> 0).
  { intros E. unfold py_pow in Hlhs. rewrite E in Hlhs. discriminate. }
  unfold Verifier.verify, bind, gets, lift, ret. cbn.
  fold P. rewrite Hlhs, Hc. cbn.
  rewrite py_pow_nonneg by assumption. rewrite py_mod_nonzero by assumption.
  reflexivity.
Qed.

(** ** The honest run *)

Section Honest.

Variables p g : Z.
Hypothesis p_ge_3 : 3 <= p.
Hypothesis g_order : g ^ (p - 1) mod p = 1.

Lemma new_session_run (x : Z) (rs : Rng) :
  exists y,
    py_pow g x p = Ok y /\
    y = g ^ (x mod (p - 1)) mod p /\
    new_session p g x rs
    = Ok (mkWorld rs
            (mkProver (mkSchnorrProtocol p g) x y None)
            (mkVerifier (mkSchnorrProtocol p g) y None)).
Proof.
  exists (g ^ (x mod (p - 1)) mod p).
  pose proof (py_pow_generator p g p_ge_3 g_order x) as E.
  repeat split; [assumption|].
  unfold new_session, SchnorrProtocol_init, Prover.init, Verifier.init, and_then.
  cbn. rewrite E. reflexivity.
Qed.

(** Acceptance by any verifier that holds the public key and the
    challenge. *)
Lemma verify_honest (x r c : Z) (w : World) :
  0 <= r -> 0 <= c ->
  vf_protocol (verifier w) = mkSchnorrProtocol p g ->
  vf_y (verifier w) = g ^ (x mod (p - 1)) mod p ->
  vf_c (verifier w) = Some c ->
  Verifier.verify (g ^ r mod p) ((r + c * x) mod (p - 1)) w = (Ok true, w).
Proof.
  intros Hr Hc HP Hy Hvc.
  assert (Hs : 0 <= (r + c * x) mod (p - 1) < p - 1)
    by (apply Z.mod_pos_bound; lia).
  rewrite (verify_run w _ _ c (g ^ ((r + c * x) mod (p - 1)) mod p));
    rewrite ?HP; cbn; try assumption.
  - rewrite Hy, <- verification_equation, Z.eqb_refl by assumption.
    reflexivity.
  - apply py_pow_nonneg; lia.
Qed.

Lemma exchange_run (x r c : Z) (rs : Rng) :
  1 <= r <= p - 2 -> 1 <= c <= p - 2 ->
  next_raw rs = r -> next_raw (advance rs) = c ->
  let y := g ^ (x mod (p - 1)) mod p in
  let t := g ^ r mod p in
  let s := (r + c * x) mod (p - 1) in
  fst (exchange (mkWorld rs
                   (mkProver (mkSchnorrProtocol p g) x y None)
                   (mkVerifier (mkSchnorrProtocol p g) y None)))
  = Ok (mkTranscript t c s (g ^ s mod p) ((t * (y ^ c mod p)) mod p) true).
Proof.
  intros Hr Hc Er Ec y t s.
  assert (Hs : 0 <= s < p - 1) by (apply Z.mod_pos_bound; lia).
  unfold exchange, bind.
  rewrite commit_run by (cbn; lia). cbn.
  rewrite challenge_run by (cbn; lia). cbn.
  rewrite Er, Ec, !clamp_id by lia.
  rewrite (respond_run _ c r) by (cbn; (reflexivity || lia)). cbn.
  fold s t.
  unfold t at 1, s at 1.
  rewrite (verify_honest x r c) by (cbn; (reflexivity || lia)).
  unfold gets, lift, ret. cbn.
  rewrite !py_pow_nonneg, py_mod_nonzero by lia.
  reflexivity.
Qed.

(** Signing then verifying, for any digest function. *)
Lemma sign_then_verify_run
    (H : string -> Z) (m : string) (x k : Z) (w : World) :
  1 <= k <= p - 2 -> next_raw (rng w) = k ->
  let e := H (py_str (g ^ k mod p) ++ py_encode m)%string mod (p - 1) in
  let s := (k + e * x) mod (p - 1) in
  let w' := mkWorld (advance (rng w)) (prover w) (verifier w) in
  schnorr_signature H m x (mkSchnorrProtocol p g) w = (Ok (s, e), w') /\
  verify_signature H m (s, e) (g ^ (x mod (p - 1)) mod p)
    (mkSchnorrProtocol p g) w'
  = (Ok true, w').
Proof.
  intros Hk Ek e s w'.
  assert (He : 0 <= e < p - 1) by (apply Z.mod_pos_bound; lia).
  assert (Hs : 0 <= s < p - 1) by (apply Z.mod_pos_bound; lia).
  split.
  - unfold schnorr_signature, bind, lift, ret. cbn.
    rewrite randint_run by lia. cbn.
    rewrite Ek, clamp_id by lia.
    rewrite py_pow_nonneg by lia.
    rewrite !py_mod_nonzero by lia.
    reflexivity.
  - unfold verify_signature, bind, lift, ret. cbn.
    rewrite !py_pow_nonneg by lia.
    rewrite py_mod_nonzero by lia.
    unfold s at 1.
    rewrite reconstruction_equation by (assumption || lia).
    rewrite py_mod_nonzero by lia.
    fold e. rewrite Z.eqb_refl. reflexivity.
Qed.

End Honest.

(** * The claims *)

(** C1.  Completeness of the interactive protocol.  For a prime modulus
    [p >= 3] with generator [g], any secret [x], any nonce [r] and any
    challenge [c] in [[1, p-2]] (the two values [randint] draws), the public
    key [y = pow(g, x, p)] exists, the honest commitment [t = g^r mod p] and
    response [s = (r + c*x) mod (p-1)] satisfy
    [g^s mod p = (t * y^c mod p) mod p], [Verifier.verify(t, s)] returns
    [True] in every world whose verifier holds [y] and [c], and the whole
    exchange of [run_protocol] ends with [valid = True]. *)
Theorem completeness (p g x r c : Z) (rs : Rng) :
  Z.prime p -> 3 <= p -> is_generator p g = true ->
  1 <= r <= p - 2 -> 1 <= c <= p - 2 ->
  next_raw rs = r -> next_raw (advance rs) = c ->
  exists y,
    py_pow g x p = Ok y /\
    let t := g ^ r mod p in
    let s := (r + c * x) mod (p - 1) in
    g ^ s mod p = (t * (y ^ c mod p)) mod p /\
    (forall w,
        verifier w = mkVerifier (mkSchnorrProtocol p g) y (Some c) ->
        Verifier.verify t s w = (Ok true, w)) /\
    run_protocol_with p g x rs
    = Ok (mkTranscript t c s (g ^ s mod p) ((t * (y ^ c mod p)) mod p) true).
Proof.
  intros Hprime Hp Hgen Hr Hc Er Ec.
  pose proof (generator_order p g Hprime Hp Hgen) as Hord.
  destruct (new_session_run p g Hp Hord x rs) as [y [Hy [Ey Hnew]]].
  exists y. split; [assumption|]. cbn zeta.
  subst y. repeat split.
  - apply verification_equation; (assumption || lia).
  - intros w Hw.
    apply verify_honest; try assumption; try lia; rewrite Hw; reflexivity.
  - unfold run_protocol_with. rewrite Hnew. unfold and_then.
    apply exchange_run; assumption.
Qed.

Lemma completeness_witness :
  exists y,
    py_pow 5 6 23 = Ok y /\
    let t := 5 ^ 3 mod 23 in
    let s := (3 + 7 * 6) mod (23 - 1) in
    5 ^ s mod 23 = (t * (y ^ 7 mod 23)) mod 23 /\
    (forall w,
        verifier w = mkVerifier (mkSchnorrProtocol 23 5) y (Some 7) ->
        Verifier.verify t s w = (Ok true, w)) /\
    run_protocol_with 23 5 6 (rng_of [3; 7])
    = Ok (mkTranscript t 7 s (5 ^ s mod 23) ((t * (y ^ 7 mod 23)) mod 23) true).
Proof.
  apply (completeness 23 5 6 3 7 (rng_of [3; 7])).
  - apply is_prime_sound. vm_compute. reflexivity.
  - lia.
  - vm_compute. reflexivity.
  - lia.
  - lia.
  - reflexivity.
  - reflexivity.
Defined.

(** C2.  Signature round trip.  For a prime modulus [p >= 3] with generator
    [g], any secret key [x] with public key [y = pow(g, x, p)], any message
    and any nonce [k] in [[1, p-2]] drawn inside signing,
    [schnorr_signature] returns [(s, e)] with [e] the digest of the
    commitment and the message modulo [p - 1] and
    [s = (k + e*x) mod (p-1)], and [verify_signature] returns [True] on
    it, whatever the digest function is. *)
Theorem signature_round_trip
    (sha256_int : string -> Z) (p g x y k : Z) (m : string) (w : World) :
  Z.prime p -> 3 <= p -> is_generator p g = true ->
  py_pow g x p = Ok y ->
  1 <= k <= p - 2 -> next_raw (rng w) = k ->
  let P := mkSchnorrProtocol p g in
  let e := sha256_int (py_str (g ^ k mod p) ++ py_encode m)%string mod (p - 1) in
  let s := (k + e * x) mod (p - 1) in
  exists w',
    schnorr_signature sha256_int m x P w = (Ok (s, e), w') /\
    verify_signature sha256_int m (s, e) y P w' = (Ok true, w') /\
    fst (sign_then_verify sha256_int m x y P w) = Ok true.
Proof.
  intros Hprime Hp Hgen Hy Hk Ek P e s. subst P e s.
  pose proof (generator_order p g Hprime Hp Hgen) as Hord.
  rewrite (py_pow_generator p g Hp Hord x) in Hy. injection Hy as <-.
  destruct (sign_then_verify_run p g Hp Hord sha256_int m x k w Hk Ek)
    as [Hsign Hverify].
  eexists. split; [exact Hsign|]. split; [exact Hverify|].
  unfold sign_then_verify, bind. rewrite Hsign, Hverify. reflexivity.
Qed.

Lemma signature_round_trip_witness :
  exists w',
    schnorr_signature toy_digest "Hello, Crypto!" 6 toy_protocol
      (toy_world [4] None None) = (Ok (14, 20), w') /\
    verify_signature toy_digest "Hello, Crypto!" (14, 20) 8 toy_protocol w'
    = (Ok true, w') /\
    fst (sign_then_verify toy_digest "Hello, Crypto!" 6 8 toy_protocol
           (toy_world [4] None None)) = Ok true.
Proof.
  refine (signature_round_trip toy_digest 23 5 6 8 4 "Hello, Crypto!"
            (toy_world [4] None None) _ _ _ _ _ _).
  - apply is_prime_sound. vm_compute. reflexivity.
  - lia.
  - vm_compute. reflexivity.
  - reflexivity.
  - lia.
  - reflexivity.
Defined.

(** C3.  The numeric chain of the toy group [p = 23], [g = 5], secret
    [x = 6]: the public key is 8; with nonce 3 the commitment is 10; with
    challenge 7 the response is 1; verification computes [lhs = 5] and
    [rhs = 5] and accepts. *)
Theorem toy_chain :
  Prover.init toy_protocol 6 = Ok (mkProver toy_protocol 6 8 None) /\
  fst (Prover.commit (toy_world [3] None None)) = Ok 10 /\
  pr_r (prover (snd (Prover.commit (toy_world [3] None None)))) = Some 3 /\
  fst (Verifier.challenge (toy_world [7] (Some 3) None)) = Ok 7 /\
  fst (Prover.respond 7 (toy_world [] (Some 3) None)) = Ok 1 /\
  (3 + 7 * 6) mod 22 = 1 /\
  py_pow 5 1 23 = Ok 5 /\
  py_pow 8 7 23 = Ok 12 /\
  py_mod (10 * 12) 23 = Ok 5 /\
  fst (Verifier.verify 10 1 (toy_world [] (Some 3) (Some 7))) = Ok true /\
  run_protocol (rng_of [3; 7]) = Ok (mkTranscript 10 7 1 5 5 true).
Proof.
  repeat split; vm_compute; reflexivity.
Qed.

(** C4.  Knowledge extraction.  A prover with secret [x] in [[1, p-2]]
    that has committed to a nonce [r] answers two challenges [c1 <> c2]
    with [s1 = (r + c1*x) mod (p-1)] and [s2 = (r + c2*x) mod (p-1)]; for
    every inverse [inv] of [c1 - c2] modulo [p - 1],
    [(s1 - s2) * inv mod (p-1)] is [x mod (p-1)], which is [x]. *)
Theorem knowledge_extraction (w : World) (r c1 c2 inv : Z) :
  let p := p_ (pr_protocol (prover w)) in
  let x := pr_x (prover w) in
  1 <= x <= p - 2 ->
  pr_r (prover w) = Some r ->
  c1 <> c2 ->
  ((c1 - c2) * inv) mod (p - 1) = 1 ->
  exists s1 s2,
    Prover.respond c1 w = (Ok s1, w) /\
    Prover.respond c2 w = (Ok s2, w) /\
    s1 = (r + c1 * x) mod (p - 1) /\
    s2 = (r + c2 * x) mod (p - 1) /\
    ((s1 - s2) * inv) mod (p - 1) = x mod (p - 1) /\
    x mod (p - 1) = x.
Proof.
  intros p x Hx Hr Hne Hinv.
  exists ((r + c1 * x) mod (p - 1)), ((r + c2 * x) mod (p - 1)).
  split; [apply respond_run; [assumption|fold p; lia]|].
  split; [apply respond_run; [assumption|fold p; lia]|].
  split; [reflexivity|]. split; [reflexivity|].
  split; [|apply Z.mod_small; lia].
  rewrite <- Z.mul_mod_idemp_l by lia.
  rewrite <- Zminus_mod.
  replace (r + c1 * x - (r + c2 * x)) with ((c1 - c2) * x) by ring.
  rewrite Z.mul_mod_idemp_l by lia.
  replace ((c1 - c2) * x * inv) with (x * ((c1 - c2) * inv)) by ring.
  rewrite <- Z.mul_mod_idemp_r, Hinv, Z.mul_1_r by lia.
  reflexivity.
Qed.

Lemma knowledge_extraction_witness :
  exists s1 s2,
    Prover.respond 7 (toy_world [] (Some 3) None)
    = (Ok s1, toy_world [] (Some 3) None) /\
    Prover.respond 2 (toy_world [] (Some 3) None)
    = (Ok s2, toy_world [] (Some 3) None) /\
    s1 = (3 + 7 * 6) mod (23 - 1) /\
    s2 = (3 + 2 * 6) mod (23 - 1) /\
    ((s1 - s2) * 9) mod (23 - 1) = 6 mod (23 - 1) /\
    6 mod (23 - 1) = 6.
Proof.
  refine (knowledge_extraction (toy_world [] (Some 3) None) 3 7 2 9 _ _ _ _).
  - cbn. lia.
  - reflexivity.
  - lia.
  - reflexivity.
Defined.

(** C5, as the code has it.  [Prover.respond] called before any [commit]
    fails for every challenge, and the failure is the [TypeError] of adding
    an integer to [None]; the prover is left as it was. *)
Theorem respond_before_commit (w : World) (c : Z) :
  pr_r (prover w) = None ->
  Prover.respond c w = (Raise TypeError, w).
Proof.
  intros Hr. unfold Prover.respond, bind, gets. cbn. rewrite Hr. reflexivity.
Qed.

Lemma respond_before_commit_witness :
  Prover.respond 7 (toy_world [] None None)
  = (Raise TypeError, toy_world [] None None).
Proof.
  apply (respond_before_commit (toy_world [] None None) 7). reflexivity.
Defined.

(** C5, as stated, fails: a freshly constructed prover of the toy group
    answers challenge 7 by an exception that is not [ProtocolStateError]. *)
Lemma respond_before_commit_not_state_error :
  pr_r (prover (toy_world [] None None)) = None /\
  fst (Prover.respond 7 (toy_world [] None None))
  <> Raise (OtherError "ProtocolStateError").
Proof.
  split; [reflexivity|]. vm_compute. discriminate.
Qed.

(** C6, as the code has it.  The constructor of the group parameters has no
    validation: it accepts every modulus and every generator and stores
    them unchanged. *)
Theorem constructor_accepts_everything (p g : Z) :
  exists P,
    SchnorrProtocol_init p g = Ok P /\ p_ P = p /\ g_ P = g.
Proof.
  exists (mkSchnorrProtocol p g). repeat split.
Qed.

(** C6, as stated, fails: modulus 4 with generator 0 is malformed on both
    counts and the constructor returns an object; a prover built on it
    commits without any error. *)
Lemma constructor_accepts_malformed :
  malformed 4 0 = true /\
  SchnorrProtocol_init 4 0 = Ok (mkSchnorrProtocol 4 0) /\
  SchnorrProtocol_init 4 0 <> Raise (OtherError "InvalidParameter") /\
  run_protocol_with 4 0 6 (rng_of [1; 1]) = Ok (mkTranscript 0 1 1 0 0 true).
Proof.
  repeat split. discriminate.
Qed.

(** ** Inversion of the two drawing methods *)

Lemma commit_inv (w w' : World) (t : Z) :
  Prover.commit w = (Ok t, w') ->
  let P := pr_protocol (prover w) in
  let r := clamp 1 (p_ P - 2) (next_raw (rng w)) in
  3 <= p_ P /\ 1 <= r <= p_ P - 2 /\ t = g_ P ^ r mod p_ P /\
  w' = mkWorld (advance (rng w)) (Prover.set_r r (prover w)) (verifier w).
Proof.
  intros Hrun P r.
  destruct (Z_lt_le_dec (p_ P) 3) as [Hlt|Hge].
  - exfalso. revert Hrun.
    unfold Prover.commit, bind, gets. cbn. fold P.
    rewrite randint_empty by lia. discriminate.
  - rewrite commit_run in Hrun by exact Hge.
    injection Hrun as <- <-.
    pose proof (clamp_range 1 (p_ P - 2) (next_raw (rng w)) ltac:(lia)) as Hr.
    repeat split; try assumption; try reflexivity; apply Hr.
Qed.

Lemma challenge_inv (w w' : World) (c : Z) :
  Verifier.challenge w = (Ok c, w') ->
  let P := vf_protocol (verifier w) in
  3 <= p_ P /\ 1 <= c <= p_ P - 2 /\
  c = clamp 1 (p_ P - 2) (next_raw (rng w)) /\
  w' = mkWorld (advance (rng w)) (prover w) (Verifier.set_c c (verifier w)).
Proof.
  intros Hrun P.
  destruct (Z_lt_le_dec (p_ P) 3) as [Hlt|Hge].
  - exfalso. revert Hrun.
    unfold Verifier.challenge, bind, gets. cbn. fold P.
    rewrite randint_empty by lia. discriminate.
  - rewrite challenge_run in Hrun by exact Hge.
    injection Hrun as <- <-.
    pose proof (clamp_range 1 (p_ P - 2) (next_raw (rng w)) ltac:(lia)) as Hc.
    repeat split; try assumption; try reflexivity; apply Hc.
Qed.

(** ** Calls that only read *)

Lemma verify_frame (t s : Z) (w : World) : snd (Verifier.verify t s w) = w.
Proof.
  unfold Verifier.verify, bind, gets, lift, ret, as_int, raise. cbn.
  case_results; reflexivity.
Qed.

Lemma verify_reads_verifier (t s : Z) (w1 w2 : World) :
  verifier w1 = verifier w2 ->
  fst (Verifier.verify t s w1) = fst (Verifier.verify t s w2).
Proof.
  intros E.
  unfold Verifier.verify, bind, gets, lift, ret, as_int, raise. cbn.
  rewrite E. case_results; reflexivity.
Qed.

Lemma verify_signature_frame
    (H : string -> Z) (m : string) (sig : Z * Z) (y : Z)
    (P : SchnorrProtocol) (w : World) :
  snd (verify_signature H m sig y P w) = w.
Proof.
  destruct sig as [s e].
  unfold verify_signature, bind, lift, ret. cbn.
  case_results; reflexivity.
Qed.

Lemma verify_signature_reads_nothing
    (H : string -> Z) (m : string) (sig : Z * Z) (y : Z)
    (P : SchnorrProtocol) (w1 w2 : World) :
  fst (verify_signature H m sig y P w1) = fst (verify_signature H m sig y P w2).
Proof.
  destruct sig as [s e].
  unfold verify_signature, bind, lift, ret. cbn.
  case_results; reflexivity.
Qed.

Lemma respond_frame (c : Z) (w : World) : snd (Prover.respond c w) = w.
Proof.
  unfold Prover.respond, bind, gets, lift, ret, as_int, raise. cbn.
  case_results; reflexivity.
Qed.

(** C7.  Verification is deterministic and has no effect.
    [Verifier.verify] returns the world it was given, its result depends on
    its two arguments and the verifier object only (not on the prover, not
    on the random generator), and calling it again gives the same result;
    [verify_signature] returns the world it was given, its result depends
    on its arguments only, and calling it again gives the same result. *)
Theorem verification_deterministic (sha256_int : string -> Z) :
  (forall t s w, snd (Verifier.verify t s w) = w) /\
  (forall t s w1 w2,
      verifier w1 = verifier w2 ->
      fst (Verifier.verify t s w1) = fst (Verifier.verify t s w2)) /\
  (forall t s w,
      Verifier.verify t s (snd (Verifier.verify t s w)) = Verifier.verify t s w) /\
  (forall m sig y P w, snd (verify_signature sha256_int m sig y P w) = w) /\
  (forall m sig y P w1 w2,
      fst (verify_signature sha256_int m sig y P w1)
      = fst (verify_signature sha256_int m sig y P w2)) /\
  (forall m sig y P w,
      verify_signature sha256_int m sig y P
        (snd (verify_signature sha256_int m sig y P w))
      = verify_signature sha256_int m sig y P w).
Proof.
  repeat split; intros.
  - apply verify_frame.
  - apply verify_reads_verifier; assumption.
  - rewrite verify_frame. reflexivity.
  - apply verify_signature_frame.
  - apply verify_signature_reads_nothing.
  - rewrite verify_signature_frame. reflexivity.
Qed.

Lemma verification_deterministic_witness :
  fst (Verifier.verify 10 1 (toy_world [3; 7] (Some 3) (Some 7)))
  = fst (Verifier.verify 10 1 (toy_world [] None (Some 7))).
Proof.
  apply (proj1 (proj2 (verification_deterministic toy_digest))).
  reflexivity.
Defined.

(** C8.  [Verifier.verify] takes the commitment and the response only and
    reads the challenge from the verifier.  After a call of [challenge]
    that returned [c] (whatever was stored before), [verify(t, s)] returns
    [True] exactly when [pow(g, s, p)] equals [(t * y^c mod p) mod p], and
    for [s >= 0] it returns the boolean [g^s mod p == (t * y^c mod p) mod p].
    While no challenge was ever stored, [verify] raises instead of
    returning: [TypeError] when [pow(g, s, p)] itself evaluates. *)
Theorem verify_uses_stored_challenge (w : World) (t s : Z) :
  (forall c w',
      Verifier.challenge w = (Ok c, w') ->
      let P := vf_protocol (verifier w') in
      let rhs := (t * (vf_y (verifier w') ^ c mod p_ P)) mod p_ P in
      vf_c (verifier w') = Some c /\
      (fst (Verifier.verify t s w') = Ok true <->
       exists lhs, py_pow (g_ P) s (p_ P) = Ok lhs /\ lhs = rhs) /\
      (0 <= s ->
       fst (Verifier.verify t s w') = Ok (g_ P ^ s mod p_ P =? rhs))) /\
  (vf_c (verifier w) = None ->
   let P := vf_protocol (verifier w) in
   raises (fst (Verifier.verify t s w)) /\
   (is_ok (py_pow (g_ P) s (p_ P)) = true ->
    fst (Verifier.verify t s w) = Raise TypeError)).
Proof.
  split.
  - intros c w' Hrun P rhs.
    destruct (challenge_inv w w' c Hrun) as [Hp [Hc [_ Hw']]].
    assert (Hvc : vf_c (verifier w') = Some c) by (rewrite Hw'; reflexivity).
    assert (HP : p_ P = p_ (vf_protocol (verifier w)))
      by (unfold P; rewrite Hw'; reflexivity).
    split; [assumption|]. split.
    + destruct (py_pow (g_ P) s (p_ P)) as [lhs|e] eqn:Hlhs.
      * rewrite (verify_run w' t s c lhs) by (assumption || lia).
        fold P. fold rhs. cbn. split.
        -- intros E. injection E as E. apply Z.eqb_eq in E.
           exists lhs. split; [reflexivity|assumption].
        -- intros [l [El Er]]. injection El as <-.
           rewrite Er, Z.eqb_refl. reflexivity.
      * split.
        -- unfold Verifier.verify, bind, gets, lift. cbn. fold P.
           rewrite Hlhs. discriminate.
        -- intros [l [El _]]. discriminate.
    + intros Hs.
      rewrite (verify_run w' t s c (g_ P ^ s mod p_ P)); try assumption; try lia.
      * reflexivity.
      * apply py_pow_nonneg; [rewrite HP; lia|assumption].
  - intros Hnone P.
    unfold raises, Verifier.verify, bind, gets, lift, as_int, raise. cbn.
    fold P. rewrite Hnone.
    destruct (py_pow (g_ P) s (p_ P)) as [lhs|e]; cbn.
    + split; [exists TypeError; reflexivity|reflexivity].
    + split; [exists e; reflexivity|discriminate].
Qed.

Lemma verify_uses_stored_challenge_witness :
  fst (Verifier.verify 10 1 (snd (Verifier.challenge (toy_world [7] (Some 3) None))))
  = Ok (5 ^ 1 mod 23 =? (10 * (8 ^ 7 mod 23)) mod 23)
  /\ fst (Verifier.verify 10 1 (toy_world [7] (Some 3) None)) = Raise TypeError.
Proof.
  destruct (verify_uses_stored_challenge (toy_world [7] (Some 3) None) 10 1)
    as [Hafter Hbefore].
  split.
  - refine (proj2 (proj2 (Hafter 7 _ eq_refl)) _). lia.
  - refine (proj2 (Hbefore eq_refl) eq_refl).
Defined.

(** C9.  For every modulus [p >= 3], every generator, key, message and
    digest function, [schnorr_signature] returns a pair [(s, e)] with
    [0 <= s <= p-2] and [0 <= e <= p-2]; hence the exponent [p - 1 - e]
    that [verify_signature] computes lies in [[1, p-1]]. *)
Theorem signature_range
    (sha256_int : string -> Z) (p g x : Z) (m : string) (w : World) :
  3 <= p ->
  exists s e w',
    schnorr_signature sha256_int m x (mkSchnorrProtocol p g) w = (Ok (s, e), w') /\
    0 <= s <= p - 2 /\ 0 <= e <= p - 2 /\ 1 <= p - 1 - e <= p - 1.
Proof.
  intros Hp.
  pose proof (clamp_range 1 (p - 2) (next_raw (rng w)) ltac:(lia)) as Hk.
  unfold schnorr_signature, bind, lift, ret. cbn.
  rewrite randint_run by lia. cbn.
  rewrite py_pow_nonneg by lia.
  rewrite !py_mod_nonzero by lia.
  do 3 eexists. split; [reflexivity|].
  match goal with
  | |- _ <= ?s mod _ <= _ /\ _ <= ?e mod _ <= _ /\ _ =>
      pose proof (Z.mod_pos_bound s (p - 1) ltac:(lia));
      pose proof (Z.mod_pos_bound e (p - 1) ltac:(lia))
  end.
  lia.
Qed.

Lemma signature_range_witness :
  exists s e w',
    schnorr_signature toy_digest "Hello, Crypto!" 6 (mkSchnorrProtocol 23 5)
      (toy_world [4] None None) = (Ok (s, e), w') /\
    0 <= s <= 23 - 2 /\ 0 <= e <= 23 - 2 /\ 1 <= 23 - 1 - e <= 23 - 1.
Proof.
  apply (signature_range toy_digest 23 5 6 "Hello, Crypto!"
           (toy_world [4] None None)).
  lia.
Defined.

(** C10.  [Prover.respond] writes nothing: the world after the call is the
    world before it, whether it returns or raises.  In particular the
    nonce stays: after one [commit], two successive calls [respond(c1)] and
    [respond(c2)] both return, and both responses are computed from the
    nonce [r] that this [commit] stored. *)
Theorem respond_keeps_nonce (w : World) (c1 c2 : Z) :
  snd (Prover.respond c1 w) = w /\
  (forall t w1,
      Prover.commit w = (Ok t, w1) ->
      exists r,
        pr_r (prover w1) = Some r /\
        let x := pr_x (prover w1) in
        let n := p_ (pr_protocol (prover w1)) - 1 in
        (s1 <- Prover.respond c1 ;; s2 <- Prover.respond c2 ;; ret (s1, s2)) w1
        = (Ok ((r + c1 * x) mod n, (r + c2 * x) mod n), w1)).
Proof.
  split; [apply respond_frame|].
  intros t w1 Hrun.
  destruct (commit_inv w w1 t Hrun) as [Hp [Hr [_ Hw1]]].
  eexists. split; [rewrite Hw1; reflexivity|]. cbn zeta.
  assert (Hr1 : pr_r (prover w1)
                = Some (clamp 1 (p_ (pr_protocol (prover w)) - 2) (next_raw (rng w))))
    by (rewrite Hw1; reflexivity).
  assert (Hp1 : p_ (pr_protocol (prover w1)) <> 1)
    by (rewrite Hw1; cbn; lia).
  unfold bind.
  rewrite (respond_run w1 c1 _ Hr1 Hp1), (respond_run w1 c2 _ Hr1 Hp1).
  reflexivity.
Qed.

Lemma respond_keeps_nonce_witness :
  exists r,
    pr_r (prover (snd (Prover.commit (toy_world [3] None None)))) = Some r /\
    (s1 <- Prover.respond 7 ;; s2 <- Prover.respond 2 ;; ret (s1, s2))
      (snd (Prover.commit (toy_world [3] None None)))
    = (Ok ((r + 7 * 6) mod (23 - 1), (r + 2 * 6) mod (23 - 1)),
       snd (Prover.commit (toy_world [3] None None))).
Proof.
  exact (proj2 (respond_keeps_nonce (toy_world [3] None None) 7 2)
           10 _ eq_refl).
Defined.

(** * Further properties of the code *)

(** ** The exponent of a generator is determined modulo [p - 1] *)

Lemma NoDup_upto (n : Z) : NoDup (upto n).
Proof.
  unfold upto. apply Finite.Injective_map_NoDup.
  - intros a b E. apply Nat2Z.inj. exact E.
  - apply seq_NoDup.
Qed.

Lemma NoDup_map_injective {A B : Type} (f : A -> B) (l : list A) :
  NoDup (map f l) ->
  forall a b, In a l -> In b l -> f a = f b -> a = b.
Proof.
  induction l as [|h l IH]; cbn; intros Hnd a b Ha Hb E.
  - contradiction.
  - inversion Hnd as [|? ? Hnotin Hnd']; subst.
    destruct Ha as [<-|Ha], Hb as [<-|Hb].
    + reflexivity.
    + exfalso. apply Hnotin. rewrite E. apply in_map. assumption.
    + exfalso. apply Hnotin. rewrite <- E. apply in_map. assumption.
    + apply IH; assumption.
Qed.

Section Generator.

Variables p g : Z.
Hypothesis p_prime : Z.prime p.
Hypothesis p_ge_3 : 3 <= p.
Hypothesis g_generates : is_generator p g = true.

Lemma group_order : g ^ (p - 1) mod p = 1.
Proof. apply generator_order; assumption. Qed.

Lemma discrete_log (a : Z) :
  1 <= a <= p - 1 -> exists k, 1 <= k <= p - 1 /\ g ^ k mod p = a.
Proof.
  intros Ha. pose proof g_generates as Hgen.
  unfold is_generator in Hgen. rewrite forallb_forall in Hgen.
  specialize (Hgen a). rewrite In_upto in Hgen. specialize (Hgen Ha).
  apply existsb_exists in Hgen. destruct Hgen as [k [Hk E]].
  apply In_upto in Hk. apply Z.eqb_eq in E. exists k. split; assumption.
Qed.

Lemma powers_injective (a b : Z) :
  1 <= a <= p - 1 -> 1 <= b <= p - 1 ->
  g ^ a mod p = g ^ b mod p -> a = b.
Proof.
  intros Ha Hb E.
  apply (NoDup_map_injective (fun k => g ^ k mod p) (upto (p - 1)));
    try (apply In_upto; assumption); try assumption.
  apply (NoDup_incl_NoDup (l := upto (p - 1))).
  - apply NoDup_upto.
  - rewrite length_map. apply Nat.le_refl.
  - intros c Hc. apply In_upto in Hc.
    destruct (discrete_log c Hc) as [k [Hk Ek]].
    apply in_map_iff. exists k. split; [assumption|].
    apply In_upto. assumption.
Qed.

Lemma pow_eq_iff (a b : Z) :
  0 <= a -> 0 <= b ->
  (g ^ a mod p = g ^ b mod p <-> a mod (p - 1) = b mod (p - 1)).
Proof.
  intros Ha Hb. split; [|apply pow_congr; (assumption || apply group_order)].
  intros E.
  pose proof (Z.mod_pos_bound a (p - 1) ltac:(lia)) as Ra.
  pose proof (Z.mod_pos_bound b (p - 1) ltac:(lia)) as Rb.
  rewrite (pow_mod_order p g p_ge_3 group_order a Ha) in E.
  rewrite (pow_mod_order p g p_ge_3 group_order b Hb) in E.
  set (a' := a mod (p - 1)) in *. set (b' := b mod (p - 1)) in *.
  assert (Hshift : forall k, 0 <= k ->
             g ^ (k + (p - 1)) mod p = g ^ k mod p).
  { intros k Hk. apply pow_congr; try lia; try apply group_order.
    rewrite <- (Z.mul_1_l (p - 1)) at 1. apply Z.mod_add. lia. }
  destruct (Z.eq_dec a' 0) as [Za|Za], (Z.eq_dec b' 0) as [Zb|Zb].
  - lia.
  - exfalso. rewrite <- (Hshift a') in E by lia.
    apply powers_injective in E; lia.
  - exfalso. rewrite <- (Hshift b') in E by lia.
    apply powers_injective in E; lia.
  - apply powers_injective; (assumption || lia).
Qed.

Lemma pow_eqb (a b : Z) :
  0 <= a < p - 1 -> 0 <= b < p - 1 ->
  (g ^ a mod p =? g ^ b mod p) = (a =? b).
Proof.
  intros Ha Hb.
  destruct (Z.eqb_spec a b) as [->|Hne]; [apply Z.eqb_refl|].
  apply Z.eqb_neq. intros E. apply pow_eq_iff in E; try lia.
  rewrite !Z.mod_small in E by lia. contradiction.
Qed.

Lemma pow_nonzero (a : Z) : 0 <= a -> g ^ a mod p <> 0.
Proof.
  intros Ha E.
  pose proof (Z.mod_pos_bound a (p - 1) ltac:(lia)) as Ra.
  rewrite (pow_mod_order p g p_ge_3 group_order a Ha) in E.
  pose proof group_order as One.
  replace (p - 1) with (a mod (p - 1) + (p - 1 - a mod (p - 1))) in One at 1
    by lia.
  rewrite Z.pow_add_r, <- Z.mul_mod_idemp_l, E in One by lia.
  rewrite Z.mul_0_l, Z.mod_0_l in One by lia. discriminate.
Qed.

End Generator.

(** ** Drawing: what [commit], [challenge] and signing do to the world *)

(** X1.  For a modulus [p >= 3], [Prover.commit] returns: the nonce it
    stores is in [[1, p-2]], the commitment is [g^r mod p] and lies in
    [[0, p-1]], exactly one random value is consumed, and nothing else
    changes (secret, public key, parameters, verifier). *)
Theorem commit_effect (w : World) :
  let P := pr_protocol (prover w) in
  3 <= p_ P ->
  exists t r w',
    Prover.commit w = (Ok t, w') /\
    1 <= r <= p_ P - 2 /\
    t = g_ P ^ r mod p_ P /\ 0 <= t <= p_ P - 1 /\
    prover w' = mkProver P (pr_x (prover w)) (pr_y (prover w)) (Some r) /\
    verifier w' = verifier w /\
    rng w' = advance (rng w).
Proof.
  intros P HP.
  pose proof (clamp_range 1 (p_ P - 2) (next_raw (rng w)) ltac:(lia)) as Hr.
  do 3 eexists. split; [apply commit_run; exact HP|].
  fold P. split; [exact Hr|]. split; [reflexivity|].
  split; [|repeat split].
  pose proof (Z.mod_pos_bound
                (g_ P ^ clamp 1 (p_ P - 2) (next_raw (rng w))) (p_ P)
                ltac:(lia)).
  lia.
Qed.

Lemma commit_effect_witness :
  exists t r w',
    Prover.commit (toy_world [3] None None) = (Ok t, w') /\
    1 <= r <= 23 - 2 /\
    t = 5 ^ r mod 23 /\ 0 <= t <= 23 - 1 /\
    prover w' = mkProver toy_protocol 6 8 (Some r) /\
    verifier w' = verifier (toy_world [3] None None) /\
    rng w' = advance (rng (toy_world [3] None None)).
Proof.
  refine (commit_effect (toy_world [3] None None) _). cbn. lia.
Defined.

(** X2.  For a modulus [p >= 3], [Verifier.challenge] returns a challenge
    in [[1, p-2]], stores it in place of whatever was stored, consumes
    exactly one random value and changes nothing else. *)
Theorem challenge_effect (w : World) :
  let P := vf_protocol (verifier w) in
  3 <= p_ P ->
  exists c w',
    Verifier.challenge w = (Ok c, w') /\
    1 <= c <= p_ P - 2 /\
    verifier w' = mkVerifier P (vf_y (verifier w)) (Some c) /\
    prover w' = prover w /\
    rng w' = advance (rng w).
Proof.
  intros P HP.
  pose proof (clamp_range 1 (p_ P - 2) (next_raw (rng w)) ltac:(lia)) as Hc.
  do 2 eexists. split; [apply challenge_run; exact HP|].
  fold P. split; [exact Hc|]. repeat split.
Qed.

Lemma challenge_effect_witness :
  exists c w',
    Verifier.challenge (toy_world [7] (Some 3) (Some 2)) = (Ok c, w') /\
    1 <= c <= 23 - 2 /\
    verifier w' = mkVerifier toy_protocol 8 (Some c) /\
    prover w' = prover (toy_world [7] (Some 3) (Some 2)) /\
    rng w' = advance (rng (toy_world [7] (Some 3) (Some 2))).
Proof.
  refine (challenge_effect (toy_world [7] (Some 3) (Some 2)) _). cbn. lia.
Defined.

(** X3.  With a modulus below 3 there is nothing to draw from:
    [Prover.commit], [Verifier.challenge] and [schnorr_signature] each
    raise [ValueError], and leave the world as it was: no nonce or
    challenge is stored and no random value is consumed. *)
Theorem draws_fail_below_3
    (sha256_int : string -> Z) (m : string) (x : Z) (P : SchnorrProtocol)
    (w : World) :
  (p_ (pr_protocol (prover w)) < 3 ->
   Prover.commit w = (Raise ValueError, w)) /\
  (p_ (vf_protocol (verifier w)) < 3 ->
   Verifier.challenge w = (Raise ValueError, w)) /\
  (p_ P < 3 ->
   schnorr_signature sha256_int m x P w = (Raise ValueError, w)).
Proof.
  repeat split; intros Hp.
  - unfold Prover.commit, bind, gets. cbn.
    rewrite randint_empty by lia. reflexivity.
  - unfold Verifier.challenge, bind, gets. cbn.
    rewrite randint_empty by lia. reflexivity.
  - unfold schnorr_signature, bind. rewrite randint_empty by lia. reflexivity.
Qed.

Lemma draws_fail_below_3_witness :
  Prover.commit
    (mkWorld (rng_of [1]) (mkProver (mkSchnorrProtocol 2 1) 6 1 None)
       (mkVerifier (mkSchnorrProtocol 2 1) 1 None))
  = (Raise ValueError,
     mkWorld (rng_of [1]) (mkProver (mkSchnorrProtocol 2 1) 6 1 None)
       (mkVerifier (mkSchnorrProtocol 2 1) 1 None)).
Proof.
  refine (proj1 (draws_fail_below_3 toy_digest "m" 6 (mkSchnorrProtocol 2 1)
                   (mkWorld (rng_of [1])
                      (mkProver (mkSchnorrProtocol 2 1) 6 1 None)
                      (mkVerifier (mkSchnorrProtocol 2 1) 1 None))) _).
  cbn. lia.
Defined.

(** ** What the verifier accepts *)

(** The verifier's comparison, for a verifier described field by field
    and a public key given as a power of the generator. *)
Lemma verify_criterion (p g x r c s : Z) (w : World) :
  Z.prime p -> 3 <= p -> is_generator p g = true ->
  0 <= r -> 0 <= c ->
  vf_protocol (verifier w) = mkSchnorrProtocol p g ->
  vf_y (verifier w) = g ^ (x mod (p - 1)) mod p ->
  vf_c (verifier w) = Some c ->
  Verifier.verify (g ^ r mod p) s w
  = (Ok (s mod (p - 1) =? (r + c * x) mod (p - 1)), w).
Proof.
  intros Hprime Hp Hgen Hr Hc HP Hy Hvc.
  pose proof (generator_order p g Hprime Hp Hgen) as Hord.
  pose proof (Z.mod_pos_bound s (p - 1) ltac:(lia)) as Rs.
  pose proof (Z.mod_pos_bound (r + c * x) (p - 1) ltac:(lia)) as Rh.
  rewrite (verify_run w _ s c (g ^ (s mod (p - 1)) mod p));
    rewrite ?HP; cbn; try assumption.
  - rewrite Hy, <- (verification_equation p g Hp Hord x r c Hr Hc).
    rewrite (pow_eqb p g Hprime Hp Hgen) by assumption. reflexivity.
  - apply py_pow_generator; assumption.
Qed.

(** X4.  The exact acceptance criterion.  In a group with prime modulus
    [p >= 3] and generator [g], a verifier that holds the public key
    [y = pow(g, x, p)] and a challenge [c >= 0] answers the commitment
    [g^r mod p] and an arbitrary integer response [s] with the boolean
    [s mod (p-1) == (r + c*x) mod (p-1)]: every response that is not
    congruent to the honest one is rejected, and [verify] never raises. *)
Theorem verify_accepts_exactly (p g x y r c s : Z) (w : World) :
  Z.prime p -> 3 <= p -> is_generator p g = true ->
  py_pow g x p = Ok y ->
  0 <= r -> 0 <= c ->
  verifier w = mkVerifier (mkSchnorrProtocol p g) y (Some c) ->
  Verifier.verify (g ^ r mod p) s w
  = (Ok (s mod (p - 1) =? (r + c * x) mod (p - 1)), w).
Proof.
  intros Hprime Hp Hgen Hy Hr Hc Hw.
  pose proof (generator_order p g Hprime Hp Hgen) as Hord.
  rewrite (py_pow_generator p g Hp Hord x) in Hy. injection Hy as <-.
  apply verify_criterion; try assumption; rewrite Hw; reflexivity.
Qed.

Lemma verify_accepts_exactly_witness :
  Verifier.verify (5 ^ 3 mod 23) 45 (toy_world [] (Some 3) (Some 7))
  = (Ok (45 mod (23 - 1) =? (3 + 7 * 6) mod (23 - 1)),
     toy_world [] (Some 3) (Some 7)).
Proof.
  refine (verify_accepts_exactly 23 5 6 8 3 7 45
            (toy_world [] (Some 3) (Some 7)) _ _ _ _ _ _ _).
  - apply is_prime_sound. vm_compute. reflexivity.
  - lia.
  - vm_compute. reflexivity.
  - reflexivity.
  - lia.
  - lia.
  - reflexivity.
Defined.

(** Commitments that are congruent modulo [p] get the same answer. *)
Lemma verify_commitment_congr (t t' s : Z) (w : World) :
  t mod p_ (vf_protocol (verifier w)) = t' mod p_ (vf_protocol (verifier w)) ->
  Verifier.verify t s w = Verifier.verify t' s w.
Proof.
  unfold Verifier.verify, bind, gets, lift, ret, as_int, raise. cbn.
  set (p := p_ (vf_protocol (verifier w))). intros E.
  destruct (py_pow _ s p) as [lhs|e]; [|reflexivity].
  destruct (vf_c (verifier w)) as [c|]; [|reflexivity]. cbn.
  destruct (py_pow _ c p) as [yc|e]; [|reflexivity].
  unfold py_mod. destruct (Z.eqb_spec p 0) as [|Hp]; [reflexivity|].
  rewrite <- (Z.mul_mod_idemp_l t), E, Z.mul_mod_idemp_l by assumption.
  reflexivity.
Qed.

(** X5.  The commitment is only looked at modulo [p]: [verify] gives the
    same answer (or the same exception) for [t] and for [t + j*p], in
    every world.  A commitment need not be reduced to be accepted. *)
Theorem verify_commitment_mod_p (t s j : Z) (w : World) :
  Verifier.verify (t + j * p_ (vf_protocol (verifier w))) s w
  = Verifier.verify t s w.
Proof.
  apply verify_commitment_congr.
  destruct (Z.eq_dec (p_ (vf_protocol (verifier w))) 0) as [E|E].
  - rewrite E. f_equal. ring.
  - apply Z.mod_add. assumption.
Qed.

(** X6.  The response is only looked at modulo [p - 1]: with a prime
    modulus [p >= 3] and generator [g], [verify] gives the same answer for
    [s] and for [s + j*(p-1)], negative values included. *)
Theorem verify_response_mod_order (p g t s j : Z) (w : World) :
  Z.prime p -> 3 <= p -> is_generator p g = true ->
  vf_protocol (verifier w) = mkSchnorrProtocol p g ->
  Verifier.verify t (s + j * (p - 1)) w = Verifier.verify t s w.
Proof.
  intros Hprime Hp Hgen HP.
  pose proof (generator_order p g Hprime Hp Hgen) as Hord.
  unfold Verifier.verify, bind, gets, lift. cbn. rewrite HP. cbn.
  rewrite !(py_pow_generator p g Hp Hord).
  rewrite Z.mod_add by lia. reflexivity.
Qed.

Lemma verify_response_mod_order_witness :
  Verifier.verify 10 (1 + 2 * (23 - 1)) (toy_world [] (Some 3) (Some 7))
  = Verifier.verify 10 1 (toy_world [] (Some 3) (Some 7)).
Proof.
  refine (verify_response_mod_order 23 5 10 1 2
            (toy_world [] (Some 3) (Some 7)) _ _ _ _).
  - apply is_prime_sound. vm_compute. reflexivity.
  - lia.
  - vm_compute. reflexivity.
  - reflexivity.
Defined.

(** An accepted commitment is a power of the generator. *)
Lemma accepted_commitment_is_power (p g y t c s : Z) (w : World) :
  Z.prime p -> 3 <= p -> is_generator p g = true ->
  0 <= c ->
  verifier w = mkVerifier (mkSchnorrProtocol p g) y (Some c) ->
  fst (Verifier.verify t s w) = Ok true ->
  exists r, 1 <= r <= p - 1 /\ g ^ r mod p = t mod p.
Proof.
  intros Hprime Hp Hgen Hc Hw Hacc.
  pose proof (generator_order p g Hprime Hp Hgen) as Hord.
  pose proof (Z.mod_pos_bound s (p - 1) ltac:(lia)) as Rs.
  pose proof (Z.mod_pos_bound t p ltac:(lia)) as Rt.
  apply discrete_log; try assumption.
  enough (t mod p <> 0) by lia.
  intros Ht.
  rewrite (verify_run w t s c (g ^ (s mod (p - 1)) mod p)) in Hacc;
    rewrite ?Hw; cbn; try assumption; try reflexivity;
    [|apply py_pow_generator; assumption].
  rewrite Hw in Hacc. cbn in Hacc. injection Hacc as Hacc.
  apply Z.eqb_eq in Hacc.
  rewrite <- Z.mul_mod_idemp_l, Ht, Z.mul_0_l, Z.mod_0_l in Hacc by lia.
  revert Hacc. apply pow_nonzero; (assumption || lia).
Qed.

(** X7.  Special soundness, on the verifier itself.  With prime modulus
    [p >= 3], generator [g] and public key [y = pow(g, x, p)]: if one
    commitment [t] (any integer) is accepted with response [s1] under
    challenge [c1] and with response [s2] under challenge [c2], then for
    every inverse [inv] of [c1 - c2] modulo [p - 1] the value
    [(s1 - s2) * inv mod (p-1)] is the secret modulo [p - 1]. *)
Theorem special_soundness
    (p g x y t c1 c2 s1 s2 inv : Z) (w1 w2 : World) :
  Z.prime p -> 3 <= p -> is_generator p g = true ->
  py_pow g x p = Ok y ->
  0 <= c1 -> 0 <= c2 ->
  verifier w1 = mkVerifier (mkSchnorrProtocol p g) y (Some c1) ->
  verifier w2 = mkVerifier (mkSchnorrProtocol p g) y (Some c2) ->
  fst (Verifier.verify t s1 w1) = Ok true ->
  fst (Verifier.verify t s2 w2) = Ok true ->
  ((c1 - c2) * inv) mod (p - 1) = 1 ->
  ((s1 - s2) * inv) mod (p - 1) = x mod (p - 1).
Proof.
  intros Hprime Hp Hgen Hy Hc1 Hc2 Hw1 Hw2 Hacc1 Hacc2 Hinv.
  destruct (accepted_commitment_is_power p g y t c1 s1 w1)
    as [r [Hr Er]]; try assumption.
  pose proof (generator_order p g Hprime Hp Hgen) as Hord.
  rewrite (py_pow_generator p g Hp Hord x) in Hy. injection Hy as <-.
  assert (Hred : forall s w,
             vf_protocol (verifier w) = mkSchnorrProtocol p g ->
             Verifier.verify t s w = Verifier.verify (g ^ r mod p) s w).
  { intros s w HP. apply verify_commitment_congr.
    rewrite HP. cbn. rewrite Z.mod_mod by lia. symmetry. exact Er. }
  rewrite Hred in Hacc1 by (rewrite Hw1; reflexivity).
  rewrite Hred in Hacc2 by (rewrite Hw2; reflexivity).
  rewrite (verify_criterion p g x r c1 s1 w1) in Hacc1
    by (assumption || lia || (rewrite Hw1; reflexivity)).
  rewrite (verify_criterion p g x r c2 s2 w2) in Hacc2
    by (assumption || lia || (rewrite Hw2; reflexivity)).
  cbn in Hacc1, Hacc2.
  injection Hacc1 as E1. injection Hacc2 as E2.
  apply Z.eqb_eq in E1, E2.
  rewrite <- Z.mul_mod_idemp_l, Zminus_mod, E1, E2, <- Zminus_mod by lia.
  replace (r + c1 * x - (r + c2 * x)) with ((c1 - c2) * x) by ring.
  rewrite Z.mul_mod_idemp_l by lia.
  replace ((c1 - c2) * x * inv) with (x * ((c1 - c2) * inv)) by ring.
  rewrite <- Z.mul_mod_idemp_r, Hinv, Z.mul_1_r by lia.
  reflexivity.
Qed.

Lemma special_soundness_witness :
  ((1 - 15) * 9) mod (23 - 1) = 6 mod (23 - 1).
Proof.
  refine (special_soundness 23 5 6 8 10 7 2 1 15 9
            (toy_world [] None (Some 7)) (toy_world [] None (Some 2))
            _ _ _ _ _ _ _ _ _ _ _).
  - apply is_prime_sound. vm_compute. reflexivity.
  - lia.
  - vm_compute. reflexivity.
  - reflexivity.
  - lia.
  - lia.
  - reflexivity.
  - reflexivity.
  - vm_compute. reflexivity.
  - vm_compute. reflexivity.
  - reflexivity.
Defined.

(** ** Whole exchanges, for any state of the random generator *)

(** The three calls that follow [commit] in an exchange, when the verifier
    holds the public key of [x] and the prover answers with the secret
    [x'] and the nonce [r]. *)
Lemma challenge_respond_verify (p g x x' y r : Z) (w : World) :
  Z.prime p -> 3 <= p -> is_generator p g = true ->
  py_pow g x p = Ok y ->
  0 <= r ->
  pr_protocol (prover w) = mkSchnorrProtocol p g ->
  pr_x (prover w) = x' ->
  pr_r (prover w) = Some r ->
  vf_protocol (verifier w) = mkSchnorrProtocol p g ->
  vf_y (verifier w) = y ->
  let c := first_draw p (rng w) in
  let s := (r + c * x') mod (p - 1) in
  let w' := mkWorld (advance (rng w)) (prover w)
              (mkVerifier (mkSchnorrProtocol p g) y (Some c)) in
  (c <- Verifier.challenge ;;
   s <- Prover.respond c ;;
   v <- Verifier.verify (g ^ r mod p) s ;;
   ret (c, s, v)) w
  = (Ok (c, s, s =? (r + c * x) mod (p - 1)), w').
Proof.
  intros Hprime Hp Hgen Hy Hr HP Hx Hpr HV Hvy c s w'.
  pose proof (clamp_range 1 (p - 2) (next_raw (rng w)) ltac:(lia)) as Hc.
  fold (first_draw p (rng w)) in Hc. fold c in Hc.
  pose proof (Z.mod_pos_bound (r + c * x') (p - 1) ltac:(lia)) as Hs.
  unfold bind.
  rewrite challenge_run by (rewrite HV; cbn; lia).
  rewrite HV. cbn. fold (first_draw p (rng w)). fold c.
  rewrite (respond_run _ c r) by (cbn; rewrite ?HP; cbn; (assumption || lia)).
  cbn. rewrite HP, Hx. cbn. fold s.
  pose proof (generator_order p g Hprime Hp Hgen) as Hord.
  rewrite (py_pow_generator p g Hp Hord x) in Hy. injection Hy as Hy.
  rewrite (verify_criterion p g x r c s);
    try assumption; try lia; try (cbn; rewrite ?HV; congruence).
  unfold ret, w', Verifier.set_c.
  replace (s mod (p - 1)) with s by (unfold s; rewrite Z.mod_mod; lia).
  rewrite HV, Hvy. reflexivity.
Qed.

(** X8.  [run_protocol] cannot fail.  For a prime modulus [p >= 3] with
    generator [g] and any integer secret, whatever the random generator
    yields, the exchange returns, the nonce and the challenge it used are
    in [[1, p-2]], the two sides of the equation it prints are equal,
    and the verdict is [True]. *)
Theorem run_protocol_always_valid (p g x : Z) (rs : Rng) :
  Z.prime p -> 3 <= p -> is_generator p g = true ->
  exists tr,
    run_protocol_with p g x rs = Ok tr /\
    tr_t tr = g ^ first_draw p rs mod p /\
    tr_c tr = second_draw p rs /\
    tr_s tr = (first_draw p rs + second_draw p rs * x) mod (p - 1) /\
    tr_lhs tr = tr_rhs tr /\
    tr_valid tr = true.
Proof.
  intros Hprime Hp Hgen.
  pose proof (generator_order p g Hprime Hp Hgen) as Hord.
  destruct (new_session_run p g Hp Hord x rs) as [y [Hy [Ey Hnew]]].
  pose proof (clamp_range 1 (p - 2) (next_raw rs) ltac:(lia)) as Hr.
  pose proof (clamp_range 1 (p - 2) (next_raw (advance rs)) ltac:(lia)) as Hc.
  fold (first_draw p rs) in Hr. fold (second_draw p rs) in Hc.
  set (r := first_draw p rs) in *. set (c := second_draw p rs) in *.
  pose proof (Z.mod_pos_bound (r + c * x) (p - 1) ltac:(lia)) as Hs.
  unfold run_protocol_with. rewrite Hnew. unfold and_then.
  unfold exchange.
  unfold bind at 1. rewrite commit_run by (cbn; lia).
  cbn. fold (first_draw p rs). fold r.
  match goal with
  | |- context [bind Verifier.challenge ?k ?w0] =>
      pose proof (challenge_respond_verify p g x x y r w0 Hprime Hp Hgen Hy
                    ltac:(lia) eq_refl eq_refl eq_refl eq_refl eq_refl) as Hrun
  end.
  cbn in Hrun. change (first_draw p (advance rs)) with c in Hrun.
  unfold bind in Hrun |- *.
  destruct (Verifier.challenge _) as [[c0|e0] w1]; [|discriminate].
  destruct (Prover.respond c0 w1) as [[s0|e1] w2]; [|discriminate].
  destruct (Verifier.verify _ s0 w2) as [[v|e2] w3]; [|discriminate].
  cbn in Hrun. injection Hrun as -> -> -> ->.
  unfold gets, lift, ret. cbn.
  rewrite !py_pow_nonneg, py_mod_nonzero by lia. cbn.
  eexists. split; [reflexivity|]. cbn.
  repeat split.
  - subst y. apply verification_equation; (assumption || lia).
  - apply Z.eqb_refl.
Qed.

Lemma run_protocol_always_valid_witness :
  exists tr,
    run_protocol (rng_of [100; -5]) = Ok tr /\
    tr_t tr = 5 ^ first_draw 23 (rng_of [100; -5]) mod 23 /\
    tr_c tr = second_draw 23 (rng_of [100; -5]) /\
    tr_s tr = (first_draw 23 (rng_of [100; -5])
               + second_draw 23 (rng_of [100; -5]) * 6) mod (23 - 1) /\
    tr_lhs tr = tr_rhs tr /\
    tr_valid tr = true.
Proof.
  refine (run_protocol_always_valid 23 5 6 (rng_of [100; -5]) _ _ _).
  - apply is_prime_sound. vm_compute. reflexivity.
  - lia.
  - vm_compute. reflexivity.
Defined.

(** X9.  A prover with another secret.  When the verifier holds the
    public key of [x] and the prover computes its response with [x'], the
    exchange commit, challenge, respond, verify returns, and the verdict
    is [True] exactly when [c * (x' - x)] is a multiple of [p - 1], for
    the challenge [c] that was drawn. *)
Theorem wrong_secret_verdict (p g x x' y : Z) (w : World) :
  Z.prime p -> 3 <= p -> is_generator p g = true ->
  py_pow g x p = Ok y ->
  pr_protocol (prover w) = mkSchnorrProtocol p g ->
  pr_x (prover w) = x' ->
  vf_protocol (verifier w) = mkSchnorrProtocol p g ->
  vf_y (verifier w) = y ->
  let c := second_draw p (rng w) in
  fst ((t <- Prover.commit ;;
        c <- Verifier.challenge ;;
        s <- Prover.respond c ;;
        v <- Verifier.verify t s ;;
        ret (c, v)) w)
  = Ok (c, (c * (x' - x)) mod (p - 1) =? 0).
Proof.
  intros Hprime Hp Hgen Hy HP Hx HV Hvy c.
  pose proof (clamp_range 1 (p - 2) (next_raw (rng w)) ltac:(lia)) as Hr.
  set (r := clamp 1 (p - 2) (next_raw (rng w))) in *.
  unfold bind at 1. rewrite commit_run by (rewrite HP; cbn; lia).
  rewrite HP. cbn. fold r.
  match goal with
  | |- context [bind Verifier.challenge ?k ?w0] =>
      pose proof (challenge_respond_verify p g x x' y r w0 Hprime Hp Hgen Hy
                    ltac:(lia)) as Hrun
  end.
  cbn in Hrun. change (first_draw p (advance (rng w))) with c in Hrun.
  specialize (Hrun HP Hx eq_refl HV Hvy).
  unfold bind in Hrun |- *.
  destruct (Verifier.challenge _) as [[c0|e0] w1]; [|discriminate].
  destruct (Prover.respond c0 w1) as [[s0|e1] w2]; [|discriminate].
  destruct (Verifier.verify _ s0 w2) as [[v|e2] w3]; [|discriminate].
  cbn in Hrun. injection Hrun as -> -> -> ->.
  cbn. do 2 f_equal.
  destruct (Z.eqb_spec ((r + c * x') mod (p - 1)) ((r + c * x) mod (p - 1)))
    as [E|E];
    destruct (Z.eqb_spec ((c * (x' - x)) mod (p - 1)) 0) as [F|F];
    try reflexivity; exfalso.
  - apply F. apply Z.cong_iff_0 in E. rewrite <- E. f_equal. ring.
  - apply E. apply Z.cong_iff_0. rewrite <- F. f_equal. ring.
Qed.

Lemma wrong_secret_verdict_witness :
  fst ((t <- Prover.commit ;;
        c <- Verifier.challenge ;;
        s <- Prover.respond c ;;
        v <- Verifier.verify t s ;;
        ret (c, v))
         (mkWorld (rng_of [3; 11]) (mkProver toy_protocol 8 16 None)
            (mkVerifier toy_protocol 8 None)))
  = Ok (second_draw 23 (rng_of [3; 11]),
        (second_draw 23 (rng_of [3; 11]) * (8 - 6)) mod (23 - 1) =? 0).
Proof.
  refine (wrong_secret_verdict 23 5 6 8 8
            (mkWorld (rng_of [3; 11]) (mkProver toy_protocol 8 16 None)
               (mkVerifier toy_protocol 8 None)) _ _ _ _ _ _ _ _).
  - apply is_prime_sound. vm_compute. reflexivity.
  - lia.
  - vm_compute. reflexivity.
  - reflexivity.
  - reflexivity.
  - reflexivity.
  - reflexivity.
  - reflexivity.
Defined.

(** X10.  Committing again replaces the nonce.  After two calls of
    [commit], the response to the challenge is computed from the second
    nonce: it is accepted with the second commitment, and accepted with
    the first one only if the two nonces drawn are equal. *)
Theorem second_commit_replaces_nonce (p g x y : Z) (w : World) :
  Z.prime p -> 3 <= p -> is_generator p g = true ->
  py_pow g x p = Ok y ->
  pr_protocol (prover w) = mkSchnorrProtocol p g ->
  pr_x (prover w) = x ->
  vf_protocol (verifier w) = mkSchnorrProtocol p g ->
  vf_y (verifier w) = y ->
  fst ((t1 <- Prover.commit ;;
        t2 <- Prover.commit ;;
        c <- Verifier.challenge ;;
        s <- Prover.respond c ;;
        v1 <- Verifier.verify t1 s ;;
        v2 <- Verifier.verify t2 s ;;
        ret (v1, v2)) w)
  = Ok (first_draw p (rng w) =? second_draw p (rng w), true).
Proof.
  intros Hprime Hp Hgen Hy HP Hx HV Hvy.
  pose proof (clamp_range 1 (p - 2) (next_raw (rng w)) ltac:(lia)) as Hr1.
  pose proof (clamp_range 1 (p - 2) (next_raw (advance (rng w))) ltac:(lia))
    as Hr2.
  fold (first_draw p (rng w)) in Hr1. fold (second_draw p (rng w)) in Hr2.
  set (r1 := first_draw p (rng w)) in *.
  set (r2 := second_draw p (rng w)) in *.
  unfold bind at 1. rewrite commit_run by (rewrite HP; cbn; lia).
  rewrite HP. cbn. fold (first_draw p (rng w)). fold r1.
  unfold bind at 1. rewrite commit_run by (cbn; rewrite HP; cbn; lia).
  cbn. rewrite HP. cbn. fold (second_draw p (rng w)). fold r2.
  pose proof (clamp_range 1 (p - 2) (next_raw (advance (advance (rng w))))
                ltac:(lia)) as Hc.
  set (c := clamp 1 (p - 2) (next_raw (advance (advance (rng w))))) in *.
  unfold bind at 1. rewrite challenge_run by (cbn; rewrite HV; cbn; lia).
  cbn. rewrite HV. cbn. fold c.
  unfold bind at 1.
  rewrite (respond_run _ c r2)
    by (cbn; rewrite ?HP; cbn; (reflexivity || lia)).
  cbn. rewrite HP, Hx. cbn.
  pose proof (Z.mod_pos_bound (r2 + c * x) (p - 1) ltac:(lia)) as Hs.
  unfold bind.
  pose proof (generator_order p g Hprime Hp Hgen) as Hord.
  rewrite (py_pow_generator p g Hp Hord x) in Hy. injection Hy as Hy.
  rewrite (verify_criterion p g x r1 c); try assumption; try lia;
    try (cbn; rewrite ?HV; congruence).
  rewrite (verify_criterion p g x r2 c); try assumption; try lia;
    try (cbn; rewrite ?HV; congruence).
  cbn. rewrite Z.mod_mod, Z.eqb_refl by lia.
  do 2 f_equal.
  destruct (Z.eqb_spec r1 r2) as [->|Hne]; [apply Z.eqb_refl|].
  apply Z.eqb_neq. intros E. apply Hne.
  apply Z.cong_iff_0 in E.
  replace (r2 + c * x - (r1 + c * x)) with (r2 - r1) in E by ring.
  apply Z.cong_iff_0 in E. rewrite !Z.mod_small in E by lia. lia.
Qed.

Lemma second_commit_replaces_nonce_witness :
  fst ((t1 <- Prover.commit ;;
        t2 <- Prover.commit ;;
        c <- Verifier.challenge ;;
        s <- Prover.respond c ;;
        v1 <- Verifier.verify t1 s ;;
        v2 <- Verifier.verify t2 s ;;
        ret (v1, v2)) (toy_world [3; 4; 7] None None))
  = Ok (first_draw 23 (rng_of [3; 4; 7]) =? second_draw 23 (rng_of [3; 4; 7]),
        true).
Proof.
  refine (second_commit_replaces_nonce 23 5 6 8 (toy_world [3; 4; 7] None None)
            _ _ _ _ _ _ _ _).
  - apply is_prime_sound. vm_compute. reflexivity.
  - lia.
  - vm_compute. reflexivity.
  - reflexivity.
  - reflexivity.
  - reflexivity.
  - reflexivity.
  - reflexivity.
Defined.

(** ** Signatures *)

Lemma sign_run
    (H : string -> Z) (m : string) (p g x : Z) (w : World) :
  3 <= p ->
  let k := first_draw p (rng w) in
  let e := H (py_str (g ^ k mod p) ++ py_encode m)%string mod (p - 1) in
  schnorr_signature H m x (mkSchnorrProtocol p g) w
  = (Ok ((k + e * x) mod (p - 1), e),
     mkWorld (advance (rng w)) (prover w) (verifier w)).
Proof.
  intros Hp k e.
  pose proof (clamp_range 1 (p - 2) (next_raw (rng w)) ltac:(lia)) as Hk.
  unfold schnorr_signature, bind, lift, ret. cbn.
  rewrite randint_run by lia. cbn.
  fold (first_draw p (rng w)). fold k. fold (first_draw p (rng w)) in Hk.
  rewrite py_pow_nonneg by (fold k in Hk; lia).
  rewrite !py_mod_nonzero by lia.
  reflexivity.
Qed.

(** Verification of an honestly built pair against any message. *)
Lemma verify_built_signature
    (H : string -> Z) (m : string) (p g x y k e : Z) (w : World) :
  Z.prime p -> 3 <= p -> is_generator p g = true ->
  py_pow g x p = Ok y ->
  0 <= k -> 0 <= e <= p - 2 ->
  verify_signature H m ((k + e * x) mod (p - 1), e) y (mkSchnorrProtocol p g) w
  = (Ok (e =? H (py_str (g ^ k mod p) ++ py_encode m)%string mod (p - 1)), w).
Proof.
  intros Hprime Hp Hgen Hy Hk He.
  pose proof (generator_order p g Hprime Hp Hgen) as Hord.
  rewrite (py_pow_generator p g Hp Hord x) in Hy. injection Hy as <-.
  pose proof (Z.mod_pos_bound (k + e * x) (p - 1) ltac:(lia)) as Hs.
  unfold verify_signature, bind, lift, ret. cbn.
  rewrite !py_pow_nonneg by lia.
  rewrite py_mod_nonzero by lia.
  rewrite reconstruction_equation by (assumption || lia).
  rewrite py_mod_nonzero by lia.
  reflexivity.
Qed.



(** X12.  Only reduced challenges are accepted: for a modulus [p >= 2],
    whatever the key, the message and the digest function,
    [verify_signature] returns [True] only on pairs [(s, e)] with
    [0 <= e <= p - 2]. *)
Theorem accepted_signature_range
    (sha256_int : string -> Z) (m : string) (s e y : Z)
    (P : SchnorrProtocol) (w : World) :
  2 <= p_ P ->
  fst (verify_signature sha256_int m (s, e) y P w) = Ok true ->
  0 <= e <= p_ P - 2.
Proof.
  intros Hp.
  unfold verify_signature, bind, lift, ret. cbn.
  destruct (py_pow (g_ P) s (p_ P)) as [gs|]; [|discriminate].
  destruct (py_pow y _ (p_ P)) as [yi|]; [|discriminate].
  destruct (py_mod (gs * yi) (p_ P)) as [R|]; [|discriminate].
  rewrite py_mod_nonzero by lia. cbn.
  intros E. injection E as E. apply Z.eqb_eq in E.
  pose proof (Z.mod_pos_bound (sha256_int (py_str R ++ py_encode m)%string)
                (p_ P - 1) ltac:(lia)).
  lia.
Qed.

Lemma accepted_signature_range_witness : 0 <= 20 <= p_ toy_protocol - 2.
Proof.
  refine (accepted_signature_range toy_digest "Hello, Crypto!" 14 20 8
            toy_protocol (toy_world [] None None) _ _).
  - cbn. lia.
  - vm_compute. reflexivity.
Defined.




(** X14.  [verify_signature] can raise instead of answering [False]: when
    the public key has a common factor with the modulus and [e > p - 1],
    the exponent [p - 1 - e] is negative and [pow] raises [ValueError]
    (for a response [s >= 0] and a nonzero modulus). *)
Theorem verify_signature_raises_on_bad_key
    (sha256_int : string -> Z) (m : string) (s e y : Z)
    (P : SchnorrProtocol) (w : World) :
  p_ P <> 0 -> 0 <= s ->
  Z.gcd y (p_ P) <> 1 -> p_ P - 1 < e ->
  verify_signature sha256_int m (s, e) y P w = (Raise ValueError, w).
Proof.
  intros H0 Hs Hy He.
  unfold verify_signature, bind, lift. cbn.
  rewrite py_pow_nonneg by assumption.
  unfold py_pow.
  destruct (Z.eqb_spec (p_ P) 0); [contradiction|].
  destruct (Z.leb_spec 0 (p_ P - 1 - e)); [lia|].
  destruct (Z.eqb_spec (Z.gcd y (p_ P)) 1); [contradiction|].
  reflexivity.
Qed.

Lemma verify_signature_raises_on_bad_key_witness :
  verify_signature toy_digest "m" (1, 30) 46 toy_protocol
    (toy_world [] None None)
  = (Raise ValueError, toy_world [] None None).
Proof.
  refine (verify_signature_raises_on_bad_key toy_digest "m" 1 30 46
            toy_protocol (toy_world [] None None) _ _ _ _).
  - cbn. lia.
  - lia.
  - vm_compute. discriminate.
  - cbn. lia.
Defined.

(** X15.  The response of a signature is only looked at modulo [p - 1]:
    with a prime modulus [p >= 3] and generator [g], [(s + j*(p-1), e)] is
    accepted exactly when [(s, e)] is, so a valid signature has infinitely
    many valid variants. *)
Theorem signature_response_mod_order
    (sha256_int : string -> Z) (m : string) (p g s e y j : Z) (w : World) :
  Z.prime p -> 3 <= p -> is_generator p g = true ->
  verify_signature sha256_int m (s + j * (p - 1), e) y (mkSchnorrProtocol p g) w
  = verify_signature sha256_int m (s, e) y (mkSchnorrProtocol p g) w.
Proof.
  intros Hprime Hp Hgen.
  pose proof (generator_order p g Hprime Hp Hgen) as Hord.
  unfold verify_signature, bind, lift. cbn.
  rewrite !(py_pow_generator p g Hp Hord).
  rewrite Z.mod_add by lia. reflexivity.
Qed.

Lemma signature_response_mod_order_witness :
  verify_signature toy_digest "Hello, Crypto!" (14 + 3 * (23 - 1), 20) 8
    (mkSchnorrProtocol 23 5) (toy_world [] None None)
  = verify_signature toy_digest "Hello, Crypto!" (14, 20) 8
      (mkSchnorrProtocol 23 5) (toy_world [] None None).
Proof.
  refine (signature_response_mod_order toy_digest "Hello, Crypto!"
            23 5 14 20 8 3 (toy_world [] None None) _ _ _).
  - apply is_prime_sound. vm_compute. reflexivity.
  - lia.
  - vm_compute. reflexivity.
Defined.

(** X16.  A repeated nonce gives the key away.  If two calls of
    [schnorr_signature] with the same key draw the same random value, then
    from the two signatures [(s1, e1)] and [(s2, e2)] and any inverse [inv]
    of [e1 - e2] modulo [p - 1], [(s1 - s2) * inv mod (p-1)] is the private
    key modulo [p - 1]. *)
Theorem signature_nonce_reuse
    (sha256_int : string -> Z) (p g x : Z) (m1 m2 : string)
    (w1 w2 w1' w2' : World) (s1 e1 s2 e2 inv : Z) :
  3 <= p ->
  next_raw (rng w1) = next_raw (rng w2) ->
  schnorr_signature sha256_int m1 x (mkSchnorrProtocol p g) w1
  = (Ok (s1, e1), w1') ->
  schnorr_signature sha256_int m2 x (mkSchnorrProtocol p g) w2
  = (Ok (s2, e2), w2') ->
  ((e1 - e2) * inv) mod (p - 1) = 1 ->
  ((s1 - s2) * inv) mod (p - 1) = x mod (p - 1).
Proof.
  intros Hp Hsame Hsig1 Hsig2 Hinv.
  rewrite sign_run in Hsig1, Hsig2 by assumption.
  unfold first_draw in Hsig1, Hsig2. rewrite <- Hsame in Hsig2.
  set (k := clamp 1 (p - 2) (next_raw (rng w1))) in *.
  injection Hsig1 as Es1 Ee1 _. injection Hsig2 as Es2 Ee2 _.
  rewrite Ee1 in Es1. rewrite Ee2 in Es2. subst s1 s2.
  rewrite <- Z.mul_mod_idemp_l, <- Zminus_mod by lia.
  replace (k + e1 * x - (k + e2 * x)) with ((e1 - e2) * x) by ring.
  rewrite Z.mul_mod_idemp_l by lia.
  replace ((e1 - e2) * x * inv) with (x * ((e1 - e2) * inv)) by ring.
  rewrite <- Z.mul_mod_idemp_r, Hinv, Z.mul_1_r by lia.
  reflexivity.
Qed.

Lemma signature_nonce_reuse_witness :
  ((4 - 20) * 1) mod (23 - 1) = 6 mod (23 - 1).
Proof.
  refine (signature_nonce_reuse toy_digest 23 5 6 "a" "bb"
            (toy_world [4] None None) (toy_world [4; 9] (Some 3) None)
            _ _ 4 11 20 10 1 _ _ _ _ _).
  - lia.
  - reflexivity.
  - vm_compute. reflexivity.
  - vm_compute. reflexivity.
  - reflexivity.
Defined.

(** X17.  The public key computed by [Prover.__init__].  With a prime
    modulus [p >= 3] and generator [g] the constructor never raises,
    whatever the sign of the secret; the public key lies in [[1, p-1]];
    and the secrets [x] and [x + j*(p-1)] have the same public key. *)
Theorem public_key_of_secret (p g x j : Z) :
  Z.prime p -> 3 <= p -> is_generator p g = true ->
  let P := mkSchnorrProtocol p g in
  exists y,
    Prover.init P x = Ok (mkProver P x y None) /\
    1 <= y <= p - 1 /\
    Prover.init P (x + j * (p - 1)) = Ok (mkProver P (x + j * (p - 1)) y None).
Proof.
  intros Hprime Hp Hgen P.
  pose proof (generator_order p g Hprime Hp Hgen) as Hord.
  pose proof (Z.mod_pos_bound x (p - 1) ltac:(lia)) as Hx.
  exists (g ^ (x mod (p - 1)) mod p).
  unfold Prover.init, P. cbn.
  rewrite !(py_pow_generator p g Hp Hord), Z.mod_add by lia.
  repeat split.
  - pose proof (Z.mod_pos_bound (g ^ (x mod (p - 1))) p ltac:(lia)).
    pose proof (pow_nonzero p g Hprime Hp Hgen (x mod (p - 1)) ltac:(lia)).
    lia.
  - pose proof (Z.mod_pos_bound (g ^ (x mod (p - 1))) p ltac:(lia)). lia.
Qed.

Lemma public_key_of_secret_witness :
  exists y,
    Prover.init toy_protocol (-16) = Ok (mkProver toy_protocol (-16) y None) /\
    1 <= y <= 23 - 1 /\
    Prover.init toy_protocol (-16 + 1 * (23 - 1))
    = Ok (mkProver toy_protocol (-16 + 1 * (23 - 1)) y None).
Proof.
  refine (public_key_of_secret 23 5 (-16) 1 _ _ _).
  - apply is_prime_sound. vm_compute. reflexivity.
  - lia.
  - vm_compute. reflexivity.
Defined.

(** X18.  [demo_signature] cannot fail.  Whatever the random generator
    yields and whatever the digest function is, it returns; both
    components of the signature are in [[0, 21]]; the signature is
    reported valid; the verdict on the other message is [True] exactly
    when the two reduced digests collide; one random value is consumed. *)
Theorem demo_signature_verdicts (sha256_int : string -> Z) (w : World) :
  let R := py_str (5 ^ first_draw 23 (rng w) mod 23) in
  let e1 := sha256_int (R ++ "Hello, Crypto!")%string mod 22 in
  let e2 := sha256_int (R ++ "Hello, World!")%string mod 22 in
  exists s,
    demo_signature sha256_int w
    = (Ok (mkDemo (s, e1) true (e1 =? e2)),
       mkWorld (advance (rng w)) (prover w) (verifier w)) /\
    0 <= s <= 21 /\ 0 <= e1 <= 21.
Proof.
  intros R e1 e2.
  assert (Hprime : Z.prime 23) by (apply is_prime_sound; vm_compute; reflexivity).
  assert (Hgen : is_generator 23 5 = true) by (vm_compute; reflexivity).
  assert (Hy : py_pow 5 6 23 = Ok 8) by reflexivity.
  pose proof (clamp_range 1 (23 - 2) (next_raw (rng w)) ltac:(lia)) as Hk.
  fold (first_draw 23 (rng w)) in Hk.
  pose proof (Z.mod_pos_bound (sha256_int (R ++ "Hello, Crypto!")%string) 22
                ltac:(lia)) as He.
  fold e1 in He.
  exists ((first_draw 23 (rng w) + e1 * 6) mod 22).
  split.
  - unfold demo_signature, SchnorrProtocol_default, SchnorrProtocol_init.
    unfold bind at 1. unfold lift at 1.
    unfold bind at 1. unfold lift at 1. cbn [g_ p_]. rewrite Hy.
    unfold bind at 1. rewrite (sign_run sha256_int _ 23 5 6 w) by lia.
    change (23 - 1) with 22. fold R. change (py_encode "Hello, Crypto!")
      with "Hello, Crypto!"%string. fold e1.
    unfold bind.
    pose proof (verify_built_signature sha256_int "Hello, Crypto!" 23 5 6 8
                  (first_draw 23 (rng w)) e1
                  (mkWorld (advance (rng w)) (prover w) (verifier w))
                  Hprime ltac:(lia) Hgen Hy ltac:(lia) ltac:(lia)) as V1.
    pose proof (verify_built_signature sha256_int "Hello, World!" 23 5 6 8
                  (first_draw 23 (rng w)) e1
                  (mkWorld (advance (rng w)) (prover w) (verifier w))
                  Hprime ltac:(lia) Hgen Hy ltac:(lia) ltac:(lia)) as V2.
    change (23 - 1) with 22 in V1, V2.
    rewrite V1, V2. fold R. unfold py_encode. fold e1 e2.
    rewrite Z.eqb_refl. reflexivity.
  - split; [|lia].
    pose proof (Z.mod_pos_bound (first_draw 23 (rng w) + e1 * 6) 22
                  ltac:(lia)).
    lia.
Qed.
